(** * dynamix.correlator.dense: dense and spectral XPCS correlators

    A shallow embedding of [dynamix/correlator/dense.py] and the properties
    of its correlators.

    Number model.  The float32 / float64 / complex64 scalars of the source
    are idealised to exact arithmetic in a field: a value of the program is
    an element of a [numFieldType] (real data) or of a [numClosedFieldType]
    (the complex buffers of the transform).  Rounding and overflow are
    outside the model.  The one non-finite outcome the model keeps is the
    result of a division by zero (NaN or an infinity for numpy): a quotient
    is an [option], [None] standing for "not a finite number", and it
    propagates through every later operation as NaN does.

    Arrays are [seq]s: a stack of frames is the list of its frames, a frame
    the list of its rows.  An exception of the source is a value [Raise e]. *)

From HB Require Import structures.
From mathcomp Require Import boot order algebra.
From mathcomp Require Import algC cyclotomic.
From Stdlib Require Import Lia.

Set Implicit Arguments.
Unset Strict Implicit.
Unset Printing Implicit Defensive.

Import GRing.Theory Num.Theory.
Local Open Scope ring_scope.

(** ** Exceptions and results *)

Inductive exn : Type :=
  | ImportError
  | AssertionError
  | IndexError
  | KeyError
  | ValueError
  | TypeError
  | AttributeError.

Inductive result (A : Type) : Type :=
  | Ok of A
  | Raise of exn.

Arguments Ok {A} _.
Arguments Raise {A} _.

Definition rbind {A B : Type} (r : result A) (k : A -> result B) : result B :=
  match r with
  | Ok a => k a
  | Raise e => Raise e
  end.

Notation "x <-- e ;; k" := (rbind e (fun x => k))
  (at level 200, e at level 100, k at level 200, right associativity).

(** A Python [assert]. *)
Definition assert (b : bool) : result unit :=
  if b then Ok tt else Raise AssertionError.

(** A loop that collects one result per element and stops at the first
    exception. *)
Fixpoint rmap {A B : Type} (f : A -> result B) (s : seq A) : result (seq B) :=
  if s is a :: s' then
    b <-- f a ;; bs <-- rmap f s' ;; Ok (b :: bs)
  else Ok [::].

(** ** Python dictionaries, as association lists in insertion order *)

Section Dict.

Variables (K : eqType) (V : Type).

Definition dict : Type := seq (K * V).

(** [d.get(k)] *)
Fixpoint dict_get (d : dict) (k : K) : option V :=
  if d is kv :: d' then
    if kv.1 == k then Some kv.2 else dict_get d' k
  else None.

(** [d[k]] *)
Definition dict_item (d : dict) (k : K) : result V :=
  if dict_get d k is Some v then Ok v else Raise KeyError.

(** [d[k] = v] *)
Fixpoint dict_set (d : dict) (k : K) (v : V) : dict :=
  if d is kv :: d' then
    if kv.1 == k then (k, v) :: d' else kv :: dict_set d' k v
  else [:: (k, v)].

(** [list(d.keys())] *)
Definition dict_keys (d : dict) : seq K := unzip1 d.

End Dict.

(** ** Arrays over an arbitrary scalar type

    [np.dot], [ndarray.T], [np.diag] and [np.sum], written once for any
    scalar type with a zero, an addition and a product. *)

Section Arrays.

Variables (A : Type) (zero : A) (add mul : A -> A -> A).

(** [np.sum(v)] *)
Definition np_sum (v : seq A) : A := foldr add zero v.

(** [M.T] for a matrix [M] with [n] columns *)
Definition np_T (n : nat) (M : seq (seq A)) : seq (seq A) :=
  [seq [seq nth zero row j | row <- M] | j <- iota 0 n].

(** [np.dot(M1, M2)] for a matrix [M2] with [n] columns; the inner
    dimension is the length of the rows of [M1]. *)
Definition np_dot (n : nat) (M1 M2 : seq (seq A)) : seq (seq A) :=
  [seq [seq np_sum [seq mul (nth zero r k) (nth zero (nth [::] M2 k) j)
                   | k <- iota 0 (size r)]
       | j <- iota 0 n]
  | r <- M1].

(** [M.shape == sh] for a 2D array. *)
Definition has_shape (sh : nat * nat) (M : seq (seq A)) : bool :=
  (size M == sh.1) && all (fun row => size row == sh.2) M.

(** [np.diag(M, k)] for a square matrix [M] and [k >= 0]: the entries
    [M[j, j+k]], empty once [k] reaches the size of [M]. *)
Definition np_diag (M : seq (seq A)) (k : nat) : seq A :=
  [seq nth zero (nth [::] M j) (j + k) | j <- iota 0 (size M - k)].

End Arrays.

(** ** Scalars: exact arithmetic with a non-finite element *)

Section Scalars.

Variable F : numFieldType.

(** [x / y] on finite operands. *)
Definition fdiv (x y : F) : option F :=
  if y == 0 then None else Some (x / y).

Definition xadd (a b : option F) : option F :=
  if a is Some x then if b is Some y then Some (x + y) else None else None.

Definition xmul (a b : option F) : option F :=
  if a is Some x then if b is Some y then Some (x * y) else None else None.

Definition xdiv (a b : option F) : option F :=
  if a is Some x then if b is Some y then fdiv x y else None else None.

(** [a.mean(axis=1)] / [np.mean(a, axis=1)] of a 2D array. *)
Definition np_mean_axis1 (a : seq (seq F)) : seq (option F) :=
  [seq fdiv (np_sum 0 +%R row) (size row)%:R | row <- a].

End Scalars.

(** ** The reference dense correlator *)

Section Dense.

Variable F : numFieldType.

(** [np.where(mask > 0)]: the (row, column) pairs of the positive entries
    of a 2D mask, in row-major order. *)
Definition np_where (mask : seq (seq nat)) : seq (nat * nat) :=
  flatten [seq [seq (rm.1, c) | c <- iota 0 (size rm.2) & (0 < nth 0%N rm.2 c)%N]
          | rm <- zip (iota 0 (size mask)) mask].

(** Whether [frame[r, c]] exists. *)
Definition in_bounds (frame : seq (seq F)) (rc : nat * nat) : bool :=
  (rc.1 < size frame)%N && (rc.2 < size (nth [::] frame rc.1))%N.

(** [frame[ind[0], ind[1]]] *)
Definition take_pixels (ind : seq (nat * nat)) (frame : seq (seq F)) : seq F :=
  [seq nth 0 (nth [::] frame rc.1) rc.2 | rc <- ind].

(** [py_dense_correlator(xpcs_data, mask)].  The cast to float32 is the
    identity of the number model. *)
Definition py_dense_correlator (xpcs_data : seq (seq (seq F)))
    (mask : seq (seq nat)) : result (seq (option F)) :=
  let ind := np_where mask in
  if ~~ all (fun frame => all (in_bounds frame) ind) xpcs_data
  then Raise IndexError
  else
    let xpcs_data := [seq take_pixels ind frame | frame <- xpcs_data] in
    let meanmatr := np_mean_axis1 xpcs_data in
    let ltimes := size xpcs_data in
    let lenmatr := size ind in
    let meanmatr := [:: meanmatr] in
    let num := np_dot 0 +%R *%R ltimes xpcs_data (np_T 0 lenmatr xpcs_data) in
    let denom := np_dot (Some 0) (@xadd F) (@xmul F) ltimes
                   (np_T None ltimes meanmatr) meanmatr in
    Ok [seq (let dia_n := np_diag 0 num i in
             let dia_d := np_diag None denom i in
             xdiv (xdiv (Some (np_sum 0 +%R dia_n))
                        (np_sum (Some 0) (@xadd F) dia_d))
                  (Some lenmatr%:R))
       | i <- iota 0 ltimes].

End Dense.

(** ** The attributes of [BaseCorrelator]

    [BaseCorrelator] lives in [correlator/common.py].  Its constructor
    helper [_set_parameters] fills the attributes below from the
    constructor arguments; the correlators of this file only read them. *)

Section Base.

Variable F : numFieldType.

Record BaseCorrelator : Type := MkBase {
  nframes : nat;
  shape : nat * nat;
  qmask : option (seq (seq nat));
  bins : option (seq nat);
  n_bins : nat;
  scale_factors : dict nat F;
  (** [extra_options.get("save_fft_plans")] *)
  save_fft_plans : bool;
  (** [extra_options["cublas_handle"]], when the key is present *)
  cublas_handle_option : option nat
}.

(** [self.qmask == bin_val], an array of booleans (a mask of 0 and 1 for
    [np.where(mask > 0)]). *)
Definition qmask_eq (qm : seq (seq nat)) (bin_val : nat) : seq (seq nat) :=
  [seq [seq nat_of_bool (q == bin_val) | q <- row] | row <- qm].

(** [res[i] = curve] for a row of [n] entries: the lengths agree, or a
    curve of one entry is broadcast. *)
Definition assign_row (A : Type) (n : nat) (curve : seq A) : result (seq A) :=
  if size curve == n then Ok curve
  else if curve is [:: x] then Ok (nseq n x)
  else Raise ValueError.

(** [MatMulCorrelator.correlate(frames)].  The rows beyond [len(self.bins)]
    keep the zeros of [np.zeros]. *)
Definition MatMulCorrelator_correlate (self : BaseCorrelator)
    (frames : seq (seq (seq F))) : result (seq (seq (option F))) :=
  match bins self with
  | None => Raise TypeError
  | Some bs =>
    if (n_bins self < size bs)%N then Raise IndexError
    else
      rows <-- rmap (fun bin_value =>
                 match qmask self with
                 | None => Raise IndexError
                 | Some qm =>
                   curve <-- py_dense_correlator frames (qmask_eq qm bin_value) ;;
                   assign_row (nframes self) curve
                 end) bs ;;
      Ok (rows ++ nseq (n_bins self - size bs) (nseq (nframes self) (Some 0)))
  end.

End Base.

(** ** The CUDA diagonal reduction of [CublasMatMulCorrelator] *)

Section Cublas.

Variable F : numFieldType.

(** Device arrays are flat and row-major, as in device memory. *)
Record CublasMatMulCorrelator : Type := MkCublas {
  cublas_base : BaseCorrelator F;
  cublas_handle : nat;
  blocks_ : nat * nat;
  grid_ : nat * nat;
  d_diags : seq F;
  d_sumdiags1 : seq F;
  d_sumdiags2 : seq F
}.

(** The body of the kernel [extract_upper_diags] for the thread of global
    coordinates [(x, y)], where [x = blockDim.x * blockIdx.x + threadIdx.x]
    and likewise for [y]. *)
Definition extract_upper_diags (matrix : seq F) (N : nat) (xy : nat * nat)
    (diags : seq F) : seq F :=
  let x := xy.1 in
  let y := xy.2 in
  if (N <= x)%N || (N <= y)%N || (x < y)%N then diags
  else
    let pos := (y * N + x)%N in
    let my_diag := (x - y)%N in
    set_nth 0 diags (my_diag * N + x)%N (nth 0 matrix pos).

(** The global coordinates of the threads of a launch with the given grid
    and block sizes. *)
Definition grid_threads (grid block : nat * nat) : seq (nat * nat) :=
  [seq ((block.1 * b.1 + t.1)%N, (block.2 * b.2 + t.2)%N)
  | b <- allpairs pair (iota 0 grid.1) (iota 0 grid.2),
    t <- allpairs pair (iota 0 block.1) (iota 0 block.2)].

(** A kernel launch: the device runs the threads in some order [sched]. *)
Definition launch (sched : seq (nat * nat))
    (body : nat * nat -> seq F -> seq F) (mem : seq F) : seq F :=
  foldl (fun m xy => body xy m) mem sched.

(** [skmisc.sum(d, axis=1)] for a device array [d] of shape [(N, N)]. *)
Definition skmisc_sum_axis1 (N : nat) (d : seq F) : seq F :=
  [seq np_sum 0 +%R (take N (drop (k * N) d)) | k <- iota 0 N].

(** [sum_diagonals(self, d_arr, d_out)]: the new contents of [d_out] and
    the correlator with its staging buffer [d_diags] updated. *)
Definition sum_diagonals (sched : seq (nat * nat))
    (self : CublasMatMulCorrelator) (d_arr : seq F) :
    seq F * CublasMatMulCorrelator :=
  let N := nframes (cublas_base self) in
  let diags0 := [seq 0 | _ <- d_diags self] in
  let diags := launch sched (extract_upper_diags d_arr N) diags0 in
  (skmisc_sum_axis1 N diags,
   MkCublas (cublas_base self) (cublas_handle self) (blocks_ self)
            (grid_ self) diags (d_sumdiags1 self) (d_sumdiags2 self)).

(** [_compile_kernels], for the value [updiv_n] of
    [updiv(self.nframes, 32)] ([updiv] is a helper of [dynamix.utils]). *)
Definition compile_kernels (updiv_n : nat) (b : BaseCorrelator F)
    (handle : nat) : CublasMatMulCorrelator :=
  let N := nframes b in
  MkCublas b handle (32%N, 32%N) (updiv_n, updiv_n)
           (nseq (N * N) 0) (nseq N 0) (nseq N 0).

End Cublas.

(** ** The spectral correlator [DenseFFTwCorrelator] *)

(** Modelled from the spec: [nextpow2] is a helper of [dynamix.utils], which
    the source only imports; the padded buffer length is the "next power of
    two >= 2*T*P". *)
Definition nextpow2 (n : nat) : nat := (2 ^ up_log 2 n)%N.

Section Spectral.

Variable C : numClosedFieldType.

(** The kernel of the transforms of pyfftw: [w N] stands for
    [exp(-2 i pi / N)], a primitive [N]-th root of unity. *)
Variable w : nat -> C.

(** The plan [pyfftw.FFTW(a, b, direction='FFTW_FORWARD')], executed:
    the discrete Fourier transform of its input buffer. *)
Definition FFTW_FORWARD (x : seq C) : seq C :=
  let N := size x in
  [seq np_sum 0 +%R [seq nth 0 x j * w N ^+ (j * k) | j <- iota 0 N]
  | k <- iota 0 N].

(** The plan [pyfftw.FFTW(b, a, direction='FFTW_BACKWARD')], executed by a
    call without arguments: the inverse transform, normalised by [1/N]
    (pyfftw's default [normalise_idft=True]). *)
Definition FFTW_BACKWARD (y : seq C) : seq C :=
  let N := size y in
  [seq np_sum 0 +%R [seq nth 0 y k * (w N)^-1 ^+ (j * k) | k <- iota 0 N]
       / N%:R
  | j <- iota 0 N].

(** An [FFTwPlan]: its two executors [fft] and [ifft] are bound to the
    buffers [data_direct] and [data_reciprocal], the state of the plan. *)
Record FFTwPlan : Type := MkPlan {
  data_direct : seq C;
  data_reciprocal : seq C
}.

Record DenseFFTwCorrelator : Type := MkFFTw {
  base : BaseCorrelator C;
  precompute_fft_plans : bool;
  fft_sizes : dict nat nat;
  (** a value of [ffts] is [None] or the address of a plan in the heap *)
  ffts : dict nat (option nat)
}.

(** The correlator, the plans it has allocated, and the contents of the
    memory that [pyfftw.empty_aligned] hands out: [junk a i] is entry [i] of
    the [a]-th allocation. *)
Record world : Type := MkWorld {
  self : DenseFFTwCorrelator;
  heap : seq FFTwPlan;
  junk : nat -> nat -> C
}.

Definition M (A : Type) : Type := world -> result (A * world).

Definition mret {A : Type} (a : A) : M A := fun wd => Ok (a, wd).

Definition mbind {A B : Type} (m : M A) (k : A -> M B) : M B :=
  fun wd => match m wd with
            | Ok (a, wd') => k a wd'
            | Raise e => Raise e
            end.

Definition mlift {A : Type} (r : result A) : M A :=
  fun wd => match r with
            | Ok a => Ok (a, wd)
            | Raise e => Raise e
            end.

Notation "x <~ e ;; k" := (mbind e (fun x => k))
  (at level 200, e at level 100, k at level 200, right associativity).

Fixpoint mmap {A B : Type} (f : A -> M B) (s : seq A) : M (seq B) :=
  if s is a :: s' then
    b <~ f a ;; bs <~ mmap f s' ;; mret (b :: bs)
  else mret [::].

Definition set_ffts (wd : world) (d : dict nat (option nat)) : world :=
  MkWorld (MkFFTw (base (self wd)) (precompute_fft_plans (self wd))
                  (fft_sizes (self wd)) d)
          (heap wd) (junk wd).

Definition set_fft_sizes (wd : world) (d : dict nat nat) : world :=
  MkWorld (MkFFTw (base (self wd)) (precompute_fft_plans (self wd))
                  d (ffts (self wd)))
          (heap wd) (junk wd).

Definition set_heap (wd : world) (h : seq FFTwPlan) : world :=
  MkWorld (self wd) h (junk wd).

(** [get_plan(self, bin_val)]: the address of the plan.  A new plan takes
    two buffers from [pyfftw.empty_aligned]. *)
Definition get_plan (bin_val : nat) : M nat := fun wd =>
  N <-- dict_item (fft_sizes (self wd)) bin_val ;;
  match dict_get (ffts (self wd)) bin_val with
  | Some (Some fft) => Ok (fft, wd)
  | _ =>
    let fft := size (heap wd) in
    let data_direct := mkseq (junk wd fft.*2) N in
    let data_rec := mkseq (junk wd fft.*2.+1) N in
    let wd := set_heap wd (rcons (heap wd) (MkPlan data_direct data_rec)) in
    if save_fft_plans (base (self wd))
    then Ok (fft, set_ffts wd (dict_set (ffts (self wd)) bin_val (Some fft)))
    else Ok (fft, wd)
  end.

(** [flush_plans(self, bin_val=None)] *)
Definition flush_plans (bin_val : option nat) : M unit := fun wd =>
  let bins := if bin_val is Some b then [:: b]
              else dict_keys (ffts (self wd)) in
  Ok (tt, set_ffts wd (foldl (fun d binval => dict_set d binval None)
                             (ffts (self wd)) bins)).

(** [buf[:len(v)] = v] *)
Definition set_prefix (buf v : seq C) : result (seq C) :=
  if (size v <= size buf)%N then Ok (v ++ drop (size v) buf)
  else Raise ValueError.

(** [res.reshape((n, -1))[:, -1][::-1]] *)
Definition last_column_reversed (n : nat) (res : seq C) : result (seq C) :=
  if n == 0%N then Raise ValueError
  else if (size res %% n != 0)%N then Raise ValueError
  else
    let npix := (size res %/ n)%N in
    if npix == 0%N then Raise IndexError
    else Ok (rev [seq nth 0 res (t * npix + npix.-1) | t <- iota 0 n]).

(** [np.correlate(a, v, "full")] for real arrays: entry [j] is the sum of
    the products [a[i + j - (len(v) - 1)] * v[i]] over the indices that
    exist.  numpy refuses empty arguments. *)
Definition np_correlate_full (a v : seq (option C)) : result (seq (option C)) :=
  if (size a == 0%N) || (size v == 0%N) then Raise ValueError
  else
    Ok [seq np_sum (Some 0) (@xadd C)
              [seq xmul (nth None a (i + j - (size v).-1)) (nth None v i)
              | i <- iota 0 (size v)
              & ((size v).-1 <= i + j)%N && (i + j - (size v).-1 < size a)%N]
       | j <- iota 0 (size a + size v).-1].

(** Elementwise [a / b] with numpy's broadcasting of a one-entry operand. *)
Definition np_divide (a b : seq (option C)) : result (seq (option C)) :=
  if size a == size b then Ok [seq xdiv ab.1 ab.2 | ab <- zip a b]
  else if b is [:: y] then Ok [seq xdiv x y | x <- a]
  else if a is [:: x] then Ok [seq xdiv x y | y <- b]
  else Raise ValueError.

(** [_correlate_1d(self, frames, bin_val)] for [frames] of shape
    [(n_frames, n_pix)], float32.  The buffers of the plan are updated in
    place; the plan in the heap ends with the last contents of both. *)
Definition correlate_1d (frames : seq (seq C)) (bin_val : nat) :
    M (seq (option C)) :=
  fft <~ get_plan bin_val ;;
  fun wd =>
    let plan := nth (MkPlan [::] [::]) (heap wd) fft in
    let flat := flatten frames in
    direct1 <-- set_prefix (data_direct plan) flat ;;
    let out1 := FFTW_FORWARD direct1 in
    direct2 <-- set_prefix direct1 (rev flat) ;;
    let out2 := FFTW_FORWARD direct2 in
    let reciprocal := [seq ab.1 * ab.2 | ab <- zip out1 out2] in
    let direct3 := FFTW_BACKWARD reciprocal in
    let res := [seq 'Re z | z <- direct3] in
    let wd := set_heap wd (set_nth (MkPlan [::] [::]) (heap wd) fft
                                   (MkPlan direct3 reciprocal)) in
    numerator <-- last_column_reversed (nframes (base (self wd)))
                    (take (size flat) res) ;;
    let sums := np_mean_axis1 frames in
    full <-- np_correlate_full sums sums ;;
    let denominator := drop (size sums).-1 full in
    quot <-- np_divide [seq Some x | x <- numerator] denominator ;;
    scale <-- dict_item (scale_factors (base (self wd))) bin_val ;;
    Ok ([seq xdiv q (Some scale) | q <- quot], wd).

(** [get_pixels_in_bin(self, frames, bin_val, check, convert_to_float)].
    [frames.ndim == 3] holds by type; an array has one shape for all its
    frames.  The cast to float32 is the identity of the number model. *)
Definition get_pixels_in_bin (self : DenseFFTwCorrelator)
    (frames : seq (seq (seq C))) (bin_val : nat)
    (check convert_to_float : bool) : result (seq (seq C)) :=
  _ <-- (if check then
           _ <-- (if (0 < bin_val)%N then
                    if bins (base self) is Some bs then assert (bin_val \in bs)
                    else Raise TypeError
                  else Ok tt) ;;
           _ <-- assert (size frames == nframes (base self)) ;;
           if frames is _ :: _ then
             assert (all (has_shape (shape (base self))) frames)
           else Raise IndexError
         else Ok tt) ;;
  if frames is [::] then Raise ValueError
  else
    let reshaped := [seq flatten frame | frame <- frames] in
    if bin_val == 0%N then Ok reshaped
    else
      match qmask (base self) with
      | None => Raise AttributeError
      | Some qm =>
        let mask := [seq q == bin_val | q <- flatten qm] in
        if all (fun row => size row == size mask) reshaped
        then Ok [seq seq.mask mask row | row <- reshaped]
        else Raise IndexError
      end.

(** The body of the loop of [correlate] for one bin. *)
Definition correlate_bin (frames : seq (seq (seq C))) (bin_val : nat) :
    M (seq (option C)) :=
  arr <~ (fun wd => mlift (get_pixels_in_bin (self wd) frames bin_val
                                             true true) wd) ;;
  curve <~ correlate_1d arr bin_val ;;
  fun wd => mlift (assign_row (nframes (base (self wd))) curve) wd.

(** [correlate(self, frames)] *)
Definition correlate (frames : seq (seq (seq C))) :
    M (seq (seq (option C))) := fun wd =>
  let bins := if bins (base (self wd)) is Some bs then bs else [:: 0%N] in
  mmap (correlate_bin frames) bins wd.

(** The body of the loop of [_init_fft_plans] for one bin. *)
Definition init_fft_plans_bin (precompute : bool) (bin_val : nat) : M unit :=
  n_mask_pixels <~ (fun wd => mlift
     (if bin_val == 0%N
      then Ok ((shape (base (self wd))).1 * (shape (base (self wd))).2)%N
      else if qmask (base (self wd)) is Some qm
           then Ok (count (fun q => q == bin_val) (flatten qm))
           else Raise AttributeError) wd) ;;
  fun wd =>
    let fft_size :=
      nextpow2 (2 * nframes (base (self wd)) * n_mask_pixels) in
    let wd := set_fft_sizes wd
                (dict_set (fft_sizes (self wd)) bin_val fft_size) in
    if precompute then
      (fft <~ get_plan bin_val ;;
       fun wd => Ok (tt, set_ffts wd
                           (dict_set (ffts (self wd)) bin_val (Some fft)))) wd
    else Ok (tt, set_ffts wd (dict_set (ffts (self wd)) bin_val None)).

(** [_init_fft_plans(self, precompute_fft_plans)] *)
Definition init_fft_plans (precompute : bool) : M unit := fun wd =>
  let wd := MkWorld (MkFFTw (base (self wd)) precompute [::] [::])
                    (heap wd) (junk wd) in
  let bins := if bins (base (self wd)) is Some bs then bs else [:: 0%N] in
  (_ <~ mmap (init_fft_plans_bin precompute) bins ;; mret tt) wd.

End Spectral.

(** ** Construction of the correlators *)

(** The optional modules of the import header: a name is [false] when its
    [try: import] failed and left the name bound to [None]. *)
Record facilities : Type := MkFacilities {
  pyfftw : bool;
  CUFFT : bool;
  cublas : bool;
  (** whether [import pycuda.autoinit] succeeds *)
  pycuda_autoinit : bool;
  (** [skmisc._global_cublas_handle] once [cublas.init()] has run *)
  global_cublas_handle : nat
}.

Section Constructors.

Variable C : numClosedFieldType.

(** The constructor arguments [(shape, nframes, qmask, scale_factor,
    extra_options)] and [BaseCorrelator._set_parameters], which validates
    them and fills the attributes (in [correlator/common.py]). *)
Variable Args : Type.
Variable set_parameters : Args -> result (BaseCorrelator C).

(** [updiv] of [dynamix.utils]. *)
Variable updiv : nat -> nat -> nat.

(** The constructor of the CUFFT object of silx, for a template of [N]
    zeros: its buffers [data_in] and [data_out]. *)
Variable CUFFT_new : nat -> FFTwPlan C.

(** The override [_configure_extra_options] of the two spectral classes,
    the hook through which [_set_parameters] fills [extra_options]: it ends
    with [extra_options["save_fft_plans"] = True]. *)
Definition configure_extra_options (b : BaseCorrelator C) : BaseCorrelator C :=
  MkBase (nframes b) (shape b) (qmask b) (bins b) (n_bins b)
         (scale_factors b) true (cublas_handle_option b).

(** [DenseFFTwCorrelator.__init__], run with the allocator contents [jnk]. *)
Definition DenseFFTwCorrelator_init (env : facilities) (jnk : nat -> nat -> C)
    (args : Args) (precompute_fft_plans : bool) : result (world C) :=
  if ~~ pyfftw env then Raise ImportError
  else
    b <-- set_parameters args ;;
    let b := configure_extra_options b in
    r <-- init_fft_plans precompute_fft_plans
            (MkWorld (MkFFTw b false [::] [::]) [::] jnk) ;;
    Ok r.2.

(** [DenseCuFFTCorrelator.get_plan]; the buffers [data_in] and [data_out]
    of the CUFFT object are the two buffers of the plan record. *)
Definition cufft_get_plan (bin_val : nat) : M C nat := fun wd =>
  N <-- dict_item (fft_sizes (self wd)) bin_val ;;
  match dict_get (ffts (self wd)) bin_val with
  | Some (Some fft) =>
    let plan := nth (MkPlan [::] [::]) (heap wd) fft in
    let plan := MkPlan [seq 0 | _ <- data_direct plan]
                       [seq 0 | _ <- data_reciprocal plan] in
    Ok (fft, set_heap wd (set_nth (MkPlan [::] [::]) (heap wd) fft plan))
  | _ =>
    let fft := size (heap wd) in
    let wd := set_heap wd (rcons (heap wd) (CUFFT_new N)) in
    if save_fft_plans (base (self wd))
    then Ok (fft, set_ffts wd (dict_set (ffts (self wd)) bin_val (Some fft)))
    else Ok (fft, wd)
  end.

(** The body of the loop of [DenseCuFFTCorrelator._init_fft_plans]. *)
Definition cufft_init_fft_plans_bin (precompute : bool) (bin_val : nat) :
    M C unit :=
  mbind (fun wd => mlift
     (if bin_val == 0%N
      then Ok ((shape (base (self wd))).1 * (shape (base (self wd))).2)%N
      else if qmask (base (self wd)) is Some qm
           then Ok (count (fun q => q == bin_val) (flatten qm))
           else Raise AttributeError) wd)
  (fun n_mask_pixels wd =>
    let fft_size :=
      nextpow2 (2 * nframes (base (self wd)) * n_mask_pixels) in
    let wd := set_fft_sizes wd
                (dict_set (fft_sizes (self wd)) bin_val fft_size) in
    let wd := set_ffts wd (dict_set (ffts (self wd)) bin_val None) in
    if precompute
    then mbind (cufft_get_plan bin_val) (fun _ => mret tt) wd
    else Ok (tt, wd)).

(** [DenseCuFFTCorrelator._init_fft_plans] *)
Definition cufft_init_fft_plans (precompute : bool) : M C unit := fun wd =>
  let wd := MkWorld (MkFFTw (base (self wd)) precompute [::] [::])
                    (heap wd) (junk wd) in
  let bins := if bins (base (self wd)) is Some bs then bs else [:: 0%N] in
  mbind (mmap (cufft_init_fft_plans_bin precompute) bins)
        (fun _ => mret tt) wd.

(** [DenseCuFFTCorrelator.__init__] *)
Definition DenseCuFFTCorrelator_init (env : facilities)
    (args : Args) (precompute_fft_plans : bool) : result (world C) :=
  if ~~ CUFFT env then Raise ImportError
  else
    b <-- set_parameters args ;;
    let b := configure_extra_options b in
    r <-- cufft_init_fft_plans precompute_fft_plans
            (MkWorld (MkFFTw b false [::] [::]) [::] (fun _ _ => 0)) ;;
    Ok r.2.

(** [CublasMatMulCorrelator._init_cublas] *)
Definition init_cublas (env : facilities) (b : BaseCorrelator C) : result nat :=
  if ~~ pycuda_autoinit env then Raise ImportError
  else if cublas_handle_option b is Some handle then Ok handle
  else Ok (global_cublas_handle env).

(** [CublasMatMulCorrelator.__init__] *)
Definition CublasMatMulCorrelator_init (env : facilities) (args : Args) :
    result (CublasMatMulCorrelator C) :=
  if ~~ cublas env then Raise ImportError
  else
    b <-- set_parameters args ;;
    handle <-- init_cublas env b ;;
    Ok (compile_kernels (updiv (nframes b) 32) b handle).

End Constructors.

(** ** Reference definitions for the statements

    The quantities the curves are compared with, written from the
    mathematics of the correlation function rather than from the code. *)

Arguments xdiv : simpl never.
Arguments xadd : simpl never.
Arguments xmul : simpl never.
Arguments fdiv : simpl never.

Section DenseReference.
Variable F : numFieldType.
Definition masked_pixels (mask : seq (seq nat)) (frame : seq (seq F)) : seq F :=
  seq.mask [seq (0 < m)%N | m <- flatten mask] (flatten frame).
Definition pixel_count (mask : seq (seq nat)) : nat :=
  count (fun m => 0 < m)%N (flatten mask).
Definition px (X : seq (seq F)) (t p : nat) : F := nth 0 (nth [::] X t) p.
Definition lag_numerator (X : seq (seq F)) (P k : nat) : F :=
  \sum_(i < size X - k) \sum_(p < P) px X i p * px X (i + k) p.
Definition frame_mean (X : seq (seq F)) (P i : nat) : F :=
  (\sum_(p < P) px X i p) / P%:R.
Definition lag_denominator (X : seq (seq F)) (P k : nat) : F :=
  \sum_(i < size X - k) frame_mean X P i * frame_mean X P (i + k).
(** The curve both correlators are compared with: at lag [k], the sum of
    the dot products of the frame pairs at lag [k], divided by the sum of
    the products of their means, divided by [s]; not a finite number when
    the second sum is zero. *)
Definition reference_curve (X : seq (seq F)) (P : nat) (s : F) : seq (option F) :=
  [seq xdiv (fdiv (lag_numerator X P k) (lag_denominator X P k)) (Some s)
  | k <- iota 0 (size X)].

(** The pixels of a bin, frame by frame, and their number. *)
Definition bin_pixels (qm : seq (seq nat)) (bin : nat)
    (frames : seq (seq (seq F))) : seq (seq F) :=
  [seq mask [seq q == bin | q <- flatten qm] (flatten f) | f <- frames].

Definition bin_count (qm : seq (seq nat)) (bin : nat) : nat :=
  count (fun q => q == bin) (flatten qm).

End DenseReference.

Section SpectralReference.

Variable C : numClosedFieldType.

(** The circular convolution of two buffers of the same length [N]:
    entry [m] is the sum of [a_i * b_j] over [i + j = m] modulo [N]. *)
Definition cconv (a b : seq C) : seq C :=
  let N := size a in
  [seq np_sum 0 +%R [seq nth 0 a i * nth 0 b ((m + N - i) %% N) | i <- iota 0 N]
  | m <- iota 0 N].

(** The state in which the bins [bs] of a correlator with attributes [B]
    have their buffer lengths, no cached plan, and an allocator that hands
    out zeroed memory. *)
Definition plans_unused (B : BaseCorrelator C) (qm : seq (seq nat))
    (bs : seq nat) (wd : world C) : Prop :=
  [/\ base (self wd) = B,
      {in bs, forall bin, dict_get (fft_sizes (self wd)) bin =
                          Some (nextpow2 (2 * nframes B * bin_count qm bin))},
      {in bs, forall bin p, dict_get (ffts (self wd)) bin != Some (Some p)} &
      forall a i, junk wd a i = 0].

(** The state in which the bins [bs] have their buffer lengths, every plan
    cached for one of them lies in the heap with an input buffer of zeros
    of the length of the bin, no plan is shared by two of them, and the
    allocator hands out zeroed memory. *)
Definition plans_clean (B : BaseCorrelator C) (qm : seq (seq nat))
    (bs : seq nat) (wd : world C) : Prop :=
  [/\ base (self wd) = B,
      {in bs, forall bin, dict_get (fft_sizes (self wd)) bin =
                          Some (nextpow2 (2 * nframes B * bin_count qm bin))},
      {in bs, forall bin p,
         dict_get (ffts (self wd)) bin = Some (Some p) ->
         (p < size (heap wd))%N /\
         data_direct (nth (MkPlan [::] [::]) (heap wd) p)
         = nseq (nextpow2 (2 * nframes B * bin_count qm bin)) 0},
      {in bs &, forall b1 b2 p,
         dict_get (ffts (self wd)) b1 = Some (Some p) ->
         dict_get (ffts (self wd)) b2 = Some (Some p) -> b1 = b2}
    & forall a i, junk wd a i = 0].

(** The state after [_init_fft_plans] has run with precomputed plans over
    the bins [done]: these bins have their buffer lengths and a plan each,
    and every cached plan is the plan of one of them, lies in the heap with
    two buffers of the length of its bin as the allocator handed them out,
    and is shared with no other bin. *)
Definition plans_precomputed (B : BaseCorrelator C) (qm : seq (seq nat))
    (done : seq nat) (wd : world C) : Prop :=
  [/\ base (self wd) = B,
      {in done, forall bin, dict_get (fft_sizes (self wd)) bin =
                            Some (nextpow2 (2 * nframes B * bin_count qm bin))},
      {in done, forall bin,
         exists p, dict_get (ffts (self wd)) bin = Some (Some p)},
      forall bin p,
         dict_get (ffts (self wd)) bin = Some (Some p) ->
         [/\ (p < size (heap wd))%N, bin \in done
           & nth (MkPlan [::] [::]) (heap wd) p
             = MkPlan (mkseq (junk wd p.*2)
                         (nextpow2 (2 * nframes B * bin_count qm bin)))
                      (mkseq (junk wd p.*2.+1)
                         (nextpow2 (2 * nframes B * bin_count qm bin)))]
    & forall b1 b2 p,
         dict_get (ffts (self wd)) b1 = Some (Some p) ->
         dict_get (ffts (self wd)) b2 = Some (Some p) -> b1 = b2].

(** What a call of the spectral correlator may change between the state
    [wd] before it and the state [wd'] after it: the cache [ffts] and the
    heap of plans, which does not shrink.  The attributes, the buffer
    lengths and the allocator are the same. *)
Definition same_parameters (wd wd' : world C) : Prop :=
  [/\ base (self wd') = base (self wd),
      precompute_fft_plans (self wd') = precompute_fft_plans (self wd),
      fft_sizes (self wd') = fft_sizes (self wd),
      junk wd' = junk wd
    & (size (heap wd) <= size (heap wd'))%N].

End SpectralReference.

Section Rescaling.

Variable C : numClosedFieldType.

(** The attributes with the scale factor of one bin multiplied by [c], and
    the state of a correlator changed in that way and in no other. *)
Definition scale_bin_base (bin : nat) (c : C) (b : BaseCorrelator C) :
    BaseCorrelator C :=
  MkBase (nframes b) (shape b) (qmask b) (bins b) (n_bins b)
         [seq (kv.1, if kv.1 == bin then c * kv.2 else kv.2)
         | kv <- scale_factors b]
         (save_fft_plans b) (cublas_handle_option b).

Definition scale_bin (bin : nat) (c : C) (wd : world C) : world C :=
  MkWorld (MkFFTw (scale_bin_base bin c (base (self wd)))
                  (precompute_fft_plans (self wd))
                  (fft_sizes (self wd)) (ffts (self wd)))
          (heap wd) (junk wd).

End Rescaling.

(** ** Tolerance and concrete inputs *)

(** The relative tolerance [1e-4] of the comparison of two curves; an
    entry that is not a finite number agrees with nothing. *)
Definition within_rtol (C : numClosedFieldType) (a b : option C) : bool :=
  match a, b with
  | Some x, Some y => `|x - y| <= (10 ^ 4)%:R^-1 * `|y|
  | _, _ => false
  end.

(** A transform kernel over the algebraic numbers: a primitive [N]-th root
    of unity for every [N > 0]. *)
Definition algC_root (N : nat) : algC :=
  if N is n.+1 then sval (C_prim_root_exists (ltn0Sn n)) else 1.

(** All optional modules present, and none. *)
Definition all_facilities : facilities := MkFacilities true true true true 0.

(** Two frames of one row and two columns, and masks for them. *)
Definition frames_1x2 (F : numFieldType) : seq (seq (seq F)) :=
  [:: [:: [:: 1; 2]]; [:: [:: 3; 4]]].

Definition mask_both : seq (seq nat) := [:: [:: 1%N; 1%N]].

Definition mask_second : seq (seq nat) := [:: [:: 0%N; 1%N]].

(** One dark pixel: a single frame of one pixel of value zero. *)
Definition dark_frame (F : numFieldType) : seq (seq (seq F)) := [:: [:: [:: 0]]].

Definition mask_one : seq (seq nat) := [:: [:: 1%N]].

(** Two frames of a single pixel, of values 1 and 2, for a correlator
    without mask (the bin 0) and with the scale factor [s] for its bin. *)
Definition frames_1x1 (F : numFieldType) : seq (seq (seq F)) :=
  [:: [:: [:: 1]]; [:: [:: 2]]].

Definition base_1x1 (F : numFieldType) (s : F) : BaseCorrelator F :=
  MkBase 2 (1%N, 1%N) None None 0 [:: (0%N, s)] false None.

(** One frame of one row and two columns, both pixels in bin 1, with the
    scale factor [s] for the bin. *)
Definition frame_ones (F : numFieldType) : seq (seq (seq F)) := [:: [:: [:: 1; 1]]].

Definition base_1x2 (F : numFieldType) (s : F) : BaseCorrelator F :=
  MkBase 1 (1%N, 2%N) (Some mask_both) (Some [:: 1%N]) 1 [:: (1%N, s)] false None.

(** A 3 x 3 matrix and a CUDA correlator for three frames, with a stale
    staging buffer. *)
Definition matrix_3x3 (F : numFieldType) : seq (seq F) :=
  [:: [:: 1; 2; 3]; [:: 4; 5; 6]; [:: 7; 8; 9]].

Definition cublas_3 (F : numFieldType) : CublasMatMulCorrelator F :=
  MkCublas (MkBase 3 (1%N, 1%N) None None 0 [::] false None) 0
           (32%N, 32%N) (1%N, 1%N) (nseq 9 7) (nseq 3 0) (nseq 3 0).

(** The spectral correlator for [frames_1x1] with the scale factor 1: a
    buffer length of 4 for its single bin, the address [plan] of the cached
    plan, if any, in the heap [h], and an allocator that zero-fills. *)
Definition fftw_1x1 (C : numClosedFieldType) (plan : option nat) :
    DenseFFTwCorrelator C :=
  MkFFTw (configure_extra_options (base_1x1 (1 : C))) false
         [:: (0%N, 4%N)] [:: (0%N, plan)].

Definition world_1x1 (C : numClosedFieldType) (plan : option nat)
    (h : seq (FFTwPlan C)) : world C :=
  MkWorld (fftw_1x1 C plan) h (fun _ _ => 0).

Arguments fftw_1x1 : clear implicits.
Arguments world_1x1 : clear implicits.

(** A mask that selects nothing, two frames that are uniform over their
    two pixels, and a second stack that differs from [frames_1x2] in the
    first pixel only. *)
Definition mask_none : seq (seq nat) := [:: [:: 0%N; 0%N]].

Definition frames_uniform (F : numFieldType) : seq (seq (seq F)) :=
  [:: [:: [:: 3; 3]]; [:: [:: 5; 5]]].

Definition frames_1x2_other (F : numFieldType) : seq (seq (seq F)) :=
  [:: [:: [:: 7; 2]]; [:: [:: 9; 4]]].

(** A dense correlator for three frames of one row and two columns, both
    pixels in bin 1. *)
Definition base_3x1x2 (F : numFieldType) : BaseCorrelator F :=
  MkBase 3 (1%N, 2%N) (Some mask_both) (Some [:: 1%N]) 1 [:: (1%N, 2)]
         false None.



(** The buffers of a CUFFT object built on a template of [N] real zeros. *)
Definition cufft_zeros (C : numClosedFieldType) (N : nat) : FFTwPlan C :=
  MkPlan (nseq N 0) (nseq (N %/ 2).+1 0).

(** * Properties *)

(** Linear arithmetic on [nat]: the boolean comparisons of ssrnat are
    turned into those of the standard library before [lia] runs. *)
Ltac nat_norm :=
  change addn with Nat.add; change subn with Nat.sub;
  change muln with Nat.mul.
Ltac ssrnat_lia :=
  repeat match goal with x := _ |- _ => subst x end;
  repeat match goal with
  | |- is_true (leq _ _) => apply/leP
  | |- is_true (@eq_op _ _ _) => apply/eqP
  end;
  repeat match goal with
  | H : is_true (leq _ _) |- _ => move/leP: H
  | H : @eq nat _ _ |- _ => move: H
  end;
  nat_norm; intros; lia.

(** ** Arrays and masks *)


Section ArrayTheory.
Variable F : numFieldType.

Lemma np_sumE (s : seq F) : np_sum 0 +%R s = \sum_(x <- s) x.
Proof. exact: foldrE. Qed.

Lemma np_sum_iota (f : nat -> F) (n : nat) :
  np_sum 0 +%R [seq f i | i <- iota 0 n] = \sum_(i < n) f i.
Proof. by rewrite np_sumE big_map -[n in iota 0 n]subn0 big_mkord. Qed.

Lemma xsum_some (f : nat -> F) (s : seq nat) :
  np_sum (Some 0) (@xadd F) [seq Some (f i) | i <- s] = Some (\sum_(i <- s) f i).
Proof.
elim: s => [|i s IH] /=; first by rewrite big_nil.
by rewrite /np_sum /= -/(np_sum _ _ _) IH big_cons.
Qed.

Lemma xsum_iota (f : nat -> F) (n : nat) :
  np_sum (Some 0) (@xadd F) [seq Some (f i) | i <- iota 0 n] = Some (\sum_(i < n) f i).
Proof. by rewrite xsum_some -[n in iota 0 n]subn0 big_mkord. Qed.

(** row-wise: the indices of the positive entries select what the boolean mask
    selects *)
Lemma where_row (m : seq nat) (r : seq F) :
  size m = size r ->
  [seq nth 0 r c | c <- [seq c <- iota 0 (size m) | (0 < nth 0%N m c)%N]] =
  seq.mask [seq (0 < x)%N | x <- m] r.
Proof.
elim: m r => [|x m IH] [|y r] //= [sz].
have E : [seq nth 0 (y :: r) c | c <- [seq c <- iota 1 (size m) | (0 < nth 0%N (x :: m) c)%N]]
          = seq.mask [seq (0 < x0)%N | x0 <- m] r.
  by rewrite -(IH r sz) -[1%N]addn0 iotaDl filter_map -map_comp.
by case: (0 < x)%N => /=; rewrite E.
Qed.

Lemma take_pixels_rows (ms : seq (seq nat)) (fs pre : seq (seq F)) :
  size ms = size fs ->
  all (fun mf => size mf.1 == size mf.2) (zip ms fs) ->
  take_pixels
    (flatten [seq [seq (rm.1, c) | c <- iota 0 (size rm.2)
                                 & (0 < nth 0%N rm.2 c)%N]
             | rm <- zip (iota (size pre) (size ms)) ms])
    (pre ++ fs)
  = seq.mask [seq (0 < m)%N | m <- flatten ms] (flatten fs).
Proof.
elim: ms fs pre => [|m ms IH] [|f fs] pre //= [sz] /andP[/eqP szm szs].
rewrite /take_pixels !map_cat mask_cat ?size_map //.
congr (_ ++ _).
  rewrite -map_comp -(where_row szm); apply: eq_map => c /=.
  by rewrite nth_cat ltnn subnn.
by rewrite -cat_rcons -(size_rcons pre f); apply: IH.
Qed.


Lemma same_shape_zip (sh : nat * nat) (mask : seq (seq nat)) (f : seq (seq F)) :
  has_shape sh mask -> has_shape sh f ->
  size mask = size f /\ all (fun mf => size mf.1 == size mf.2) (zip mask f).
Proof.
case/andP=> /eqP sm am /andP[/eqP sf af]; split; first by rewrite sm sf.
have {sm sf} : size mask = size f by rewrite sm sf.
elim: mask f am af => [|m ms IH] [|g gs] //= /andP[/eqP -> am] /andP[/eqP -> ag] [sz].
by rewrite eqxx /=; apply: IH.
Qed.

Lemma take_pixels_where (sh : nat * nat) (mask : seq (seq nat)) (f : seq (seq F)) :
  has_shape sh mask -> has_shape sh f ->
  take_pixels (np_where mask) f = masked_pixels mask f.
Proof.
move=> hm hf; have [sz az] := same_shape_zip hm hf.
exact: (@take_pixels_rows mask f [::] sz az).
Qed.

Lemma size_masked_pixels (sh : nat * nat) (mask : seq (seq nat)) (f : seq (seq F)) :
  has_shape sh mask -> has_shape sh f ->
  size (masked_pixels mask f) = pixel_count mask.
Proof.
move=> hm hf; rewrite /masked_pixels size_mask ?count_map //.
rewrite size_map !size_flatten /shape.
have [sz az] := same_shape_zip hm hf.
elim: mask f sz az {hm hf} => [|m ms IH] [|g gs] //= [sz] /andP[/eqP -> az].
by rewrite (IH gs).
Qed.

Lemma size_np_where (mask : seq (seq nat)) :
  size (np_where mask) = pixel_count mask.
Proof.
pose f : seq (seq F) := [seq [seq 0 | _ <- row] | row <- mask].
pose sh := (size mask, 0%N).
have sz : size mask = size f by rewrite size_map.
have az : all (fun mf => size mf.1 == size mf.2) (zip mask f).
  by rewrite /f; elim: (mask) => [|m ms IH] //=; rewrite size_map eqxx.
have := @take_pixels_rows mask f [::] sz az.
move/(congr1 size); rewrite /take_pixels size_map -/(np_where mask) => ->.
rewrite size_mask ?count_map // size_map !size_flatten /shape.
by elim: (mask) f sz az => [|m ms IH] [|g gs] //= [sz'] /andP[/eqP -> az']; rewrite (IH gs).
Qed.

Lemma np_where_in_bounds (sh : nat * nat) (mask : seq (seq nat)) (f : seq (seq F)) :
  has_shape sh mask -> has_shape sh f ->
  all (in_bounds f) (np_where mask).
Proof.
move=> hm hf; have [sz az] := same_shape_zip hm hf.
apply/allP => rc /flatten_mapP[[r m]] /(nthP (0%N, [::])) [i].
rewrite size_zip size_iota minnn => ilt.
rewrite nth_zip ?size_iota // nth_iota // add0n => -[<- <-] /=.
case/mapP => c; rewrite mem_filter mem_iota /= add0n => /andP[_ clt] -> /=.
rewrite /in_bounds /= -sz ilt /=.
have := allP az (nth ([::], [::]) (zip mask f) i).
rewrite mem_nth ?size_zip -?sz ?minnn // nth_zip //= => /(_ isT) /eqP <-.
exact: clt.
Qed.
End ArrayTheory.

Section GenericArrays.
Variables (A : Type) (zero : A) (add mul : A -> A -> A).

Lemma nth_np_T (n : nat) (M : seq (seq A)) (i j : nat) :
  (j < n)%N -> (i < size M)%N ->
  nth zero (nth [::] (np_T zero n M) j) i = nth zero (nth [::] M i) j.
Proof.
move=> jn iM; rewrite /np_T (nth_map 0%N) ?size_iota // nth_iota // add0n.
by rewrite (nth_map [::]).
Qed.

Lemma nth_np_dot (d : A) (n : nat) (M1 M2 : seq (seq A)) (i j : nat) :
  (i < size M1)%N -> (j < n)%N ->
  nth d (nth [::] (np_dot zero add mul n M1 M2) i) j =
  np_sum zero add [seq mul (nth zero (nth [::] M1 i) k) (nth zero (nth [::] M2 k) j)
                  | k <- iota 0 (size (nth [::] M1 i))].
Proof.
move=> iM jn; rewrite /np_dot (nth_map [::]) // (nth_map 0%N) ?size_iota //.
by rewrite nth_iota // add0n.
Qed.

Lemma size_np_dot (n : nat) (M1 M2 : seq (seq A)) :
  size (np_dot zero add mul n M1 M2) = size M1.
Proof. by rewrite /np_dot size_map. Qed.

End GenericArrays.

Section DenseTheory.
Variable F : numFieldType.
Implicit Types (X : seq (seq F)) (mask : seq (seq nat)).

Lemma num_entry X P i j :
  all (fun row => size row == P) X -> (i < size X)%N -> (j < size X)%N ->
  nth 0 (nth [::] (np_dot 0 +%R *%R (size X) X (np_T 0 P X)) i) j
  = \sum_(p < P) px X i p * px X j p.
Proof.
move=> /allP hP iX jX; rewrite nth_np_dot //.
have -> : size (nth [::] X i) = P by apply/eqP/hP/mem_nth.
rewrite -(np_sum_iota (fun p => px X i p * px X j p)); congr (np_sum _ _ _).
apply/eq_in_map => p; rewrite mem_iota add0n /= => pP.
by rewrite nth_np_T.
Qed.

Lemma denom_entry (ms : seq (option F)) i j :
  (i < size ms)%N -> (j < size ms)%N ->
  nth None (nth [::] (np_dot (Some 0) (@xadd F) (@xmul F) (size ms)
                         (np_T None (size ms) [:: ms]) [:: ms]) i) j
  = xadd (xmul (nth None ms i) (nth None ms j)) (Some 0).
Proof.
move=> im jm.
have sz : size (np_T None (size ms) [:: ms]) = size ms.
  by rewrite /np_T size_map size_iota.
rewrite nth_np_dot ?sz //.
have -> : nth [::] (np_T None (size ms) [:: ms]) i = [:: nth None ms i].
  by rewrite /np_T (nth_map 0%N) ?size_iota //= nth_iota.
by rewrite /= /np_sum /= (set_nth_default None (Some 0)).
Qed.

Lemma mean_rows X P :
  (0 < P)%N -> all (fun row => size row == P) X ->
  np_mean_axis1 X = [seq Some (frame_mean X P i) | i <- iota 0 (size X)].
Proof.
move=> Ppos /allP hP; apply: (@eq_from_nth _ None); rewrite ?size_map ?size_iota //.
move=> i iX; rewrite (nth_map [::]) // (nth_map 0%N) ?size_iota // nth_iota // add0n.
have Esz : size (nth [::] X i) = P by apply/eqP/hP/mem_nth.
rewrite Esz /fdiv pnatr_eq0 (negPf (lt0n_neq0 Ppos)) /frame_mean.
by rewrite np_sumE (big_nth 0) Esz big_mkord.
Qed.

Lemma py_dense_correlatorE (sh : nat * nat) mask (frames : seq (seq (seq F))) :
  has_shape sh mask -> all (has_shape sh) frames ->
  let X := [seq masked_pixels mask f | f <- frames] in
  let P := pixel_count mask in
  (0 < P)%N ->
  py_dense_correlator frames mask =
  Ok [seq xdiv (fdiv (lag_numerator X P k) (lag_denominator X P k)) (Some P%:R)
     | k <- iota 0 (size frames)].
Proof.
move=> hm /allP hf X P Ppos; rewrite /py_dense_correlator.
have -> : all (fun frame => all (in_bounds frame) (np_where mask)) frames.
  by apply/allP => f /hf; apply: np_where_in_bounds.
have -> : [seq take_pixels (np_where mask) f | f <- frames] = X.
  by apply/eq_in_map => f /hf; apply: take_pixels_where.
have szX : size X = size frames by rewrite size_map.
have hP : all (fun row => size row == P) X.
  by apply/allP => row /mapP[f /hf hfs ->]; rewrite (size_masked_pixels hm hfs).
rewrite /= (size_np_where F) -/P; congr Ok.
rewrite szX; apply/eq_in_map => k; rewrite mem_iota add0n /= => kT.
rewrite (mean_rows Ppos hP).
set ms := [seq _ | i <- iota 0 (size X)].
have szms : size ms = size frames by rewrite size_map size_iota.
have nth_ms i : (i < size frames)%N -> nth None ms i = Some (frame_mean X P i).
  by move=> iT; rewrite (nth_map 0%N) ?size_iota ?szX // nth_iota ?szX.
have -> : np_sum 0 +%R (np_diag 0 (np_dot 0 +%R *%R (size frames) X (np_T 0 P X)) k)
          = lag_numerator X P k.
  rewrite /np_diag size_np_dot /lag_numerator szX.
  rewrite -(np_sum_iota (fun i => \sum_(p < P) px X i p * px X (i + k) p)).
  congr (np_sum _ _ _); apply/eq_in_map => i; rewrite mem_iota add0n /= => ik.
  have ikT : (i + k < size frames)%N by rewrite addnC -ltn_subRL.
  by rewrite -szX num_entry ?szX // (leq_ltn_trans (leq_addr k i)).
have -> : np_sum (Some 0) (@xadd F)
            (np_diag None (np_dot (Some 0) (@xadd F) (@xmul F) (size frames)
                             (np_T None (size frames) [:: ms]) [:: ms]) k)
          = Some (lag_denominator X P k).
  rewrite /np_diag size_np_dot /np_T size_map size_iota /lag_denominator szX.
  rewrite -(xsum_iota (fun i => frame_mean X P i * frame_mean X P (i + k))).
  congr (np_sum _ _ _); apply/eq_in_map => i; rewrite mem_iota add0n /= => ik.
  have ikT : (i + k < size frames)%N by rewrite addnC -ltn_subRL.
  have iT : (i < size frames)%N := leq_ltn_trans (leq_addr k i) ikT.
  rewrite -/(np_T None (size frames) [:: ms]) -szms denom_entry ?szms //.
  by rewrite !nth_ms // /xmul /xadd addr0.
by [].
Qed.

End DenseTheory.

(** ** The dense reference correlator: the curve *)

Section DenseClaims.

Variable F : numFieldType.
Implicit Types (mask : seq (seq nat)) (frames : seq (seq (seq F))).

(** The quotient [n / d / P] of the source, for a positive pixel count. *)
Lemma xdiv_fdiv_count (n d : F) (P : nat) :
  (0 < P)%N ->
  xdiv (fdiv n d) (Some P%:R) = if d == 0 then None else Some (n / d / P%:R).
Proof.
move=> Ppos; rewrite /xdiv /fdiv; case: ifP => // _.
by rewrite pnatr_eq0 (negPf (lt0n_neq0 Ppos)).
Qed.

(** C2.  For a stack of [T] frames and a mask of the frames' shape that
    selects [P >= 1] pixels, [py_dense_correlator] returns a curve of
    length [T] whose entry at lag [k] is the sum of the [k]-th upper
    diagonal of [X . X^T], divided by the sum of the [k]-th upper diagonal
    of [m . m^T], divided by [P], where [X] is the [(T, P)] matrix of the
    masked pixels and [m] the vector of its row means; the entry is not a
    finite number when the denominator sum is zero. *)
Theorem py_dense_correlator_curve (sh : nat * nat) mask frames :
  has_shape sh mask -> all (has_shape sh) frames ->
  let X := [seq masked_pixels mask f | f <- frames] in
  let P := pixel_count mask in
  let T := size frames in
  (0 < P)%N ->
  exists2 curve, py_dense_correlator frames mask = Ok curve &
    size curve = T /\
    forall k, (k < T)%N ->
      nth None curve k =
      if lag_denominator X P k == 0 then None
      else Some (lag_numerator X P k / lag_denominator X P k / P%:R).
Proof.
move=> hm hf X P T Ppos.
exists [seq xdiv (fdiv (lag_numerator X P k) (lag_denominator X P k))
                 (Some P%:R) | k <- iota 0 T].
  exact: py_dense_correlatorE hm hf Ppos.
split=> [|k kT]; first by rewrite size_map size_iota.
by rewrite (nth_map 0%N) ?size_iota // nth_iota // add0n xdiv_fdiv_count.
Qed.

(** C6.  The entry at lag [T-1] is the quotient of the single product of
    the first and the last frame, by the same formula as the other lags:
    the dot product of frames [0] and [T-1], divided by the product of
    their means, divided by [P]. *)
Theorem py_dense_correlator_last_lag (sh : nat * nat) mask frames :
  has_shape sh mask -> all (has_shape sh) frames ->
  let X := [seq masked_pixels mask f | f <- frames] in
  let P := pixel_count mask in
  let T := size frames in
  (0 < P)%N -> (0 < T)%N ->
  exists2 curve, py_dense_correlator frames mask = Ok curve &
    nth None curve T.-1 =
    if frame_mean X P 0 * frame_mean X P T.-1 == 0 then None
    else Some ((\sum_(p < P) px X 0 p * px X T.-1 p)
               / (frame_mean X P 0 * frame_mean X P T.-1) / P%:R).
Proof.
move=> hm hf X P T Ppos Tpos.
exists [seq xdiv (fdiv (lag_numerator X P k) (lag_denominator X P k))
                 (Some P%:R) | k <- iota 0 T].
  exact: py_dense_correlatorE hm hf Ppos.
have lastT : (T.-1 < T)%N by rewrite prednK.
rewrite (nth_map 0%N) ?size_iota // nth_iota // add0n xdiv_fdiv_count //.
have sz1 : (size X - T.-1 = 1)%N by rewrite size_map -/T -{1}(prednK Tpos) subSnn.
have -> : lag_denominator X P T.-1 = frame_mean X P 0 * frame_mean X P T.-1.
  by rewrite /lag_denominator sz1 big_ord1 add0n.
have -> // : lag_numerator X P T.-1 = \sum_(p < P) px X 0 p * px X T.-1 p.
by rewrite /lag_numerator sz1 big_ord1 add0n.
Qed.

(** C7, as amended.  With a mask that selects exactly one pixel, the curve
    has length [T] and its entry at lag [k] is [1] whenever the sum of the
    products [x_i * x_(i+k)] of the pixel's values is not zero; when that
    sum is zero the entry is the non-finite result of [0 / 0]. *)
Theorem py_dense_single_pixel (sh : nat * nat) mask frames :
  has_shape sh mask -> all (has_shape sh) frames ->
  let X := [seq masked_pixels mask f | f <- frames] in
  let T := size frames in
  pixel_count mask = 1%N ->
  exists2 curve, py_dense_correlator frames mask = Ok curve &
    size curve = T /\
    forall k, (k < T)%N ->
      nth None curve k =
      if \sum_(i < T - k) px X i 0 * px X (i + k) 0 == 0 then None
      else Some 1.
Proof.
move=> hm hf X T P1.
have Ppos : (0 < pixel_count mask)%N by rewrite P1.
exists [seq xdiv (fdiv (lag_numerator X 1 k) (lag_denominator X 1 k))
                 (Some 1%:R) | k <- iota 0 T].
  by rewrite (py_dense_correlatorE hm hf Ppos) P1.
split=> [|k kT]; first by rewrite size_map size_iota.
rewrite (nth_map 0%N) ?size_iota // nth_iota // add0n xdiv_fdiv_count //.
have -> : lag_denominator X 1 k = \sum_(i < T - k) px X i 0 * px X (i + k) 0.
  rewrite /lag_denominator size_map; apply: eq_bigr => i _.
  by rewrite /frame_mean !big_ord1 !divr1.
have -> : lag_numerator X 1 k = \sum_(i < T - k) px X i 0 * px X (i + k) 0.
  by rewrite /lag_numerator size_map; apply: eq_bigr => i _; rewrite big_ord1.
by case: ifP => // /negbT nz; rewrite divff // divr1.
Qed.

End DenseClaims.

(** ** The diagonal reduction of the CUDA correlator *)

Section CublasTheory.

Variable F : numFieldType.
Implicit Types (d matrix : seq F) (sched : seq (nat * nat)).







(** Entry [(i, j)] of an [n x n] matrix in its row-major layout. *)
Lemma nth_flatten_square (n : nat) (M : seq (seq F)) (i j : nat) :
  all (fun row => size row == n) M -> (j < n)%N ->
  nth 0 (flatten M) (i * n + j) = nth 0 (nth [::] M i) j.
Proof.
elim: M i => [|r M IH] i /=; first by rewrite !nth_nil.
case/andP=> /eqP szr hM jn; rewrite nth_cat szr.
case: i => [|i] /=; first by rewrite add0n jn.
by rewrite mulSn -addnA ltnNge leq_addr /= addKn IH.
Qed.




Section SumDiagonals.

Variables (sched : seq (nat * nat)) (self : CublasMatMulCorrelator F).
Variable matrix : seq (seq F).

Let N := nframes (cublas_base self).

Hypothesis matrix_square : has_shape (N, N) matrix.
Hypothesis staging_size : size (d_diags self) = (N * N)%N.
Hypothesis cover_x : (N <= (blocks_ self).1 * (grid_ self).1)%N.
Hypothesis cover_y : (N <= (blocks_ self).2 * (grid_ self).2)%N.
Hypothesis all_threads : perm_eq sched (grid_threads (grid_ self) (blocks_ self)).



End SumDiagonals.

End CublasTheory.

(** ** The transforms: the convolution theorem *)

Section Fourier.

Variable C : numClosedFieldType.
Variable w : nat -> C.
Hypothesis w_prim : forall N, (0 < N)%N -> N.-primitive_root (w N).

Implicit Types (a b : seq C) (N : nat).

(** Orthogonality of the characters of the cyclic group of order [N]. *)
Lemma dft_orthogonality N (e d : nat) :
  (0 < N)%N ->
  \sum_(k < N) w N ^+ (e * k) * (w N)^-1 ^+ (d * k) =
  if e == d %[mod N] then N%:R else 0.
Proof.
move=> Npos; have prim := w_prim Npos; set z := w N.
pose u := z ^+ e * z^-1 ^+ d.
have termE (k : 'I_N) : true -> z ^+ (e * k) * z^-1 ^+ (d * k) = u ^+ k.
  by rewrite !exprM -exprMn.
rewrite (eq_bigr _ termE).
have zd0 : z ^+ d != 0 by rewrite expf_neq0 // (prim_root_eq0 prim) -lt0n.
have u1 : (u == 1) = (e == d %[mod N]).
  rewrite -(eq_prim_root_expr prim) -(inj_eq (mulIf zd0)) mul1r /u.
  by rewrite exprVn divfK.
have uN : u ^+ N = 1.
  rewrite /u exprMn -!exprM ![(_ * N)%N]mulnC !exprM exprVn.
  by rewrite (prim_expr_order prim) invr1 !expr1n mulr1.
rewrite -u1; case: eqP => [->|/eqP un1].
  have one (k : 'I_N) : true -> 1 ^+ k = 1 :> C by rewrite expr1n.
  by rewrite (eq_bigr _ one) sumr_const card_ord.
have := subrX1 u N; rewrite uN subrr => /esym/eqP.
by rewrite mulf_eq0 subr_eq0 (negPf un1) /= => /eqP.
Qed.

Lemma size_FFTW_FORWARD a : size (FFTW_FORWARD w a) = size a.
Proof. by rewrite /FFTW_FORWARD size_map size_iota. Qed.

Lemma size_FFTW_BACKWARD a : size (FFTW_BACKWARD w a) = size a.
Proof. by rewrite /FFTW_BACKWARD size_map size_iota. Qed.

Lemma nth_FFTW_FORWARD a k :
  (k < size a)%N ->
  nth 0 (FFTW_FORWARD w a) k = \sum_(j < size a) nth 0 a j * w (size a) ^+ (j * k).
Proof.
move=> ka; rewrite /FFTW_FORWARD (nth_map 0%N) ?size_iota // nth_iota // add0n.
exact: (np_sum_iota (fun j => nth 0 a j * w (size a) ^+ (j * k))).
Qed.

Lemma nth_FFTW_BACKWARD a j :
  (j < size a)%N ->
  nth 0 (FFTW_BACKWARD w a) j =
  (\sum_(k < size a) nth 0 a k * (w (size a))^-1 ^+ (j * k)) / (size a)%:R.
Proof.
move=> ja; rewrite /FFTW_BACKWARD (nth_map 0%N) ?size_iota // nth_iota // add0n.
by rewrite (np_sum_iota (fun k => nth 0 a k * (w (size a))^-1 ^+ (j * k))).
Qed.

Lemma size_cconv a b : size (cconv a b) = size a.
Proof. by rewrite /cconv size_map size_iota. Qed.

Lemma nth_cconv a b m :
  (m < size a)%N ->
  nth 0 (cconv a b) m =
  \sum_(i < size a) nth 0 a i * nth 0 b ((m + size a - i) %% size a).
Proof.
move=> ma; rewrite /cconv (nth_map 0%N) ?size_iota // nth_iota // add0n.
exact: (np_sum_iota (fun i => nth 0 a i * nth 0 b ((m + size a - i) %% size a))).
Qed.

(** The one index [l < N] with [i + l = j] modulo [N]. *)
Lemma modular_partner N (i j l : nat) :
  (i < N)%N -> (l < N)%N ->
  (i + l == j %[mod N]) = (l == (j + N - i) %% N)%N.
Proof.
move=> iN lN.
have -> : (j %% N = (i + (j + N - i)) %% N)%N.
  by rewrite subnKC ?modnDr // (leq_trans (ltnW iN)) // leq_addl.
by rewrite eqn_modDl modn_small.
Qed.

(** The convolution theorem for the transforms of the plan: the inverse
    transform of the product of two forward transforms is the circular
    convolution of the two inputs. *)
Lemma convolution_theorem a b :
  size a = size b ->
  FFTW_BACKWARD w [seq ab.1 * ab.2 | ab <- zip (FFTW_FORWARD w a) (FFTW_FORWARD w b)]
  = cconv a b.
Proof.
move=> sab; set y := [seq _ | ab <- _].
have szy : size y = size a.
  by rewrite size_map size_zip !size_FFTW_FORWARD -sab minnn.
apply: (@eq_from_nth _ 0); first by rewrite size_FFTW_BACKWARD szy size_cconv.
move=> j; rewrite size_FFTW_BACKWARD szy => ja.
have Npos : (0 < size a)%N by apply: leq_ltn_trans ja.
have N0 : (size a)%:R != 0 :> C := prim_root_natf_neq0 (w_prim Npos).
rewrite nth_FFTW_BACKWARD ?szy // nth_cconv //.
set N := size a in ja Npos N0 szy *; set z := w N.
have yE (k : 'I_N) : nth 0 y k =
    (\sum_(i < N) nth 0 a i * z ^+ (i * k)) * (\sum_(l < N) nth 0 b l * z ^+ (l * k)).
  rewrite (nth_map (0, 0)) ?size_zip ?size_FFTW_FORWARD -?sab ?minnn //.
  rewrite nth_zip ?size_FFTW_FORWARD //= !nth_FFTW_FORWARD -?sab //.
have step (k : 'I_N) : true -> nth 0 y k * z^-1 ^+ (j * k) =
    \sum_(i < N) \sum_(l < N) (nth 0 a i * nth 0 b l)
                              * (z ^+ ((i + l) * k) * z^-1 ^+ (j * k)).
  move=> _; rewrite yE big_distrlr /= mulr_suml; apply: eq_bigr => i _.
  rewrite mulr_suml; apply: eq_bigr => l _.
  by rewrite mulnDl exprD; ring.
rewrite (eq_bigr _ step) exchange_big /= mulr_suml; apply: eq_bigr => i _.
rewrite exchange_big /= mulr_suml.
rewrite (bigD1 (Ordinal (ltn_pmod (j + N - i) Npos))) //=.
have rest (l : 'I_N) : l != Ordinal (ltn_pmod (j + N - i) Npos) ->
    (\sum_(k < N) (nth 0 a i * nth 0 b l)
                  * (z ^+ ((i + l) * k) * z^-1 ^+ (j * k))) / N%:R = 0.
  rewrite -val_eqE /= => ne.
  rewrite -mulr_sumr dft_orthogonality // modular_partner //.
  by rewrite (negPf ne) mulr0 mul0r.
rewrite (big1 _ _ _ rest) addr0.
rewrite -mulr_sumr dft_orthogonality // modular_partner ?ltn_pmod //.
by rewrite eqxx; field.
Qed.

End Fourier.

(** ** The spectral correlator: numerator and denominator *)

Section SpectralPure.

Variable C : numClosedFieldType.
Implicit Types (flat a b : seq C) (X : seq (seq C)).

Lemma nth_padded flat (tail : seq C) (i : nat) :
  all (fun x => x == 0) tail -> nth 0 (flat ++ tail) i = nth 0 flat i.
Proof.
move=> /allP z; rewrite nth_cat; case: ltnP => // le.
rewrite [RHS]nth_default //.
case: (ltnP (i - size flat) (size tail)) => [lt|ge]; last by rewrite nth_default.
by apply/eqP/z/mem_nth.
Qed.

(** Circular convolution of a sequence with its reversal, both padded
    with zeros to at least twice their length: no wrap-around, entry [m]
    is the linear correlation of the sequence at lag [L - 1 - m]. *)
Lemma cconv_padded flat (t1 t2 : seq C) (m : nat) :
  all (fun x => x == 0) t1 -> all (fun x => x == 0) t2 ->
  (size flat <= size t1)%N ->
  (m < size flat)%N ->
  nth 0 (cconv (flat ++ t1) (rev flat ++ t2)) m =
  \sum_(i < m.+1) nth 0 flat i * nth 0 flat (size flat - m.+1 + i).
Proof.
move=> z1 z2 Lt mL; set L := size flat in Lt mL *.
have mN : (m < size (flat ++ t1))%N.
  by rewrite size_cat (leq_trans mL) // leq_addr.
rewrite nth_cconv // size_cat -/L; set N := (L + size t1)%N.
have LN : (m.+1 <= N)%N by rewrite (leq_trans mL) // leq_addr.
rewrite (big_ord_widen N (fun i => nth 0 flat i * nth 0 flat (L - m.+1 + i)) LN).
rewrite [RHS]big_mkcond /=; apply: eq_bigr => i _.
rewrite !nth_padded //.
case: (ltnP i m.+1) => [im|mi].
  have -> : ((m + N - i) %% N = m - i)%N.
    have -> : (m + N - i = m - i + N)%N by rewrite /N; ssrnat_lia.
    by rewrite modnDr modn_small // /N; ssrnat_lia.
  have lt : (m - i < size flat)%N by ssrnat_lia.
  by rewrite (nth_rev _ lt); congr (_ * nth 0 flat _); ssrnat_lia.
case: (ltnP i L) => [iL|Li]; last by rewrite nth_default // mul0r.
have lt : (m + N - i < N)%N by ssrnat_lia.
rewrite (modn_small lt) [nth 0 (rev flat) _]nth_default ?mulr0 // size_rev -/L.
by ssrnat_lia.
Qed.

Lemma size_flatten_rect (T : Type) (P : nat) (M : seq (seq T)) :
  all (fun row => size row == P) M -> size (flatten M) = (size M * P)%N.
Proof.
elim: M => [|r M IH] //= /andP[/eqP szr hM].
by rewrite size_cat szr IH // mulSn.
Qed.

(** The linear correlation of the flattened stack at a lag of [k] whole
    frames is the sum over the frame pairs at lag [k] of their dot
    products. *)
Lemma lag_sum_flat X (P k : nat) :
  all (fun row => size row == P) X ->
  \sum_(i < (size X - k) * P) nth 0 (flatten X) i * nth 0 (flatten X) (k * P + i)
  = lag_numerator X P k.
Proof.
move=> hP; rewrite /lag_numerator.
pose f i := nth 0 (flatten X) i * nth 0 (flatten X) (k * P + i).
rewrite -(big_mkord xpredT f) big_nat_mul.
rewrite -(big_mkord xpredT (fun i => \sum_(p < P) px X i p * px X (i + k) p)).
apply: eq_bigr => t _.
have -> : (t.+1 * P = P + t * P)%N by rewrite mulSn.
rewrite -{1}[(t * P)%N]add0n big_addn addnK.
rewrite -(big_mkord xpredT (fun p => px X t p * px X (t + k) p)).
rewrite big_nat_cond [RHS]big_nat_cond; apply: eq_bigr => p /andP[/andP[_ pP] _].
rewrite /f /px addnC nth_flatten_square //.
have -> : (k * P + (t * P + p) = (t + k) * P + p)%N by ssrnat_lia.
by rewrite nth_flatten_square.
Qed.

(** The numerator slice: after the convolution of the zero-padded stack
    with its reversal, the sample at the end of frame [T-1-k] is the
    correlation sum at lag [k]. *)
Lemma numerator_sample X (P k : nat) (t1 t2 : seq C) :
  all (fun row => size row == P) X -> (0 < P)%N -> (k < size X)%N ->
  all (fun x => x == 0) t1 -> all (fun x => x == 0) t2 ->
  (size X * P <= size t1)%N ->
  nth 0 (cconv (flatten X ++ t1) (rev (flatten X) ++ t2))
        ((size X - k.+1) * P + P.-1)
  = lag_numerator X P k.
Proof.
move=> hP Ppos kT z1 z2 Lt.
have szf := size_flatten_rect hP.
have mE : (((size X - k.+1) * P + P.-1).+1 = (size X - k) * P)%N.
  have -> : (size X - k = (size X - k.+1).+1)%N by ssrnat_lia.
  by rewrite mulSn -addnS prednK // addnC.
have mL : ((size X - k.+1) * P + P.-1 < size (flatten X))%N.
  by rewrite mE szf leq_mul2r leq_subr orbT.
have Lt' : (size (flatten X) <= size t1)%N by rewrite szf.
rewrite (cconv_padded z1 z2 Lt' mL) mE -(lag_sum_flat k hP).
apply: eq_bigr => i _; congr (_ * nth 0 _ _).
by rewrite szf -mulnBl subKn // ltnW.
Qed.

(** [np.correlate(m, m, "full")[T-1:]] for finite means. *)
Lemma np_correlate_means (ms : seq C) :
  (0 < size ms)%N ->
  exists2 full,
    np_correlate_full [seq Some x | x <- ms] [seq Some x | x <- ms] = Ok full &
    drop (size ms).-1 full =
    [seq Some (\sum_(i < size ms - k) nth 0 ms i * nth 0 ms (i + k))
    | k <- iota 0 (size ms)].
Proof.
move=> Tpos; rewrite /np_correlate_full !size_map.
rewrite (negPf (lt0n_neq0 Tpos)) /=; eexists; first by [].
set T := size ms in Tpos *.
apply: (@eq_from_nth _ None).
  by rewrite size_drop !size_map !size_iota; ssrnat_lia.
move=> k; rewrite size_drop size_map size_iota => kT.
have kT' : (k < T)%N by ssrnat_lia.
have jlt : (T.-1 + k < (T + T).-1)%N by ssrnat_lia.
rewrite nth_drop (nth_map 0%N) ?size_iota // nth_iota //.
rewrite add0n [RHS](nth_map 0%N) ?size_iota // nth_iota // add0n.
rewrite -(big_mkord xpredT (fun i => nth 0 ms i * nth 0 ms (i + k))).
pose c i := (T.-1 <= i + (T.-1 + k))%N && (i + (T.-1 + k) - T.-1 < T)%N.
rewrite -/(filter c _).
have -> : [seq xmul (nth None [seq Some x | x <- ms] (i + (T.-1 + k) - T.-1))
                    (nth None [seq Some x | x <- ms] i)
          | i <- filter c (iota 0 T)]
        = [seq Some (nth 0 ms i * nth 0 ms (i + k)) | i <- filter c (iota 0 T)].
  apply/eq_in_map => i; rewrite mem_filter mem_iota add0n /c /= => /andP[/andP[_ lt] iT].
  have E : (i + (T.-1 + k) - T.-1 = i + k)%N by ssrnat_lia.
  rewrite E in lt *.
  by rewrite !(nth_map 0) // /xmul mulrC.
rewrite (xsum_some (fun i => nth 0 ms i * nth 0 ms (i + k))) big_filter.
congr Some; rewrite [RHS](big_nat_widen 0 (T - k) T) ?leq_subr //.
rewrite /index_iota subn0; apply: eq_bigl => i; rewrite /c /=.
have -> : (i + (T.-1 + k) - T.-1 = i + k)%N by ssrnat_lia.
have -> : (T.-1 <= i + (T.-1 + k))%N by ssrnat_lia.
by rewrite /= ltn_subRL [(k + i)%N]addnC.
Qed.

End SpectralPure.

(** ** Dictionaries *)

Section DictTheory.

Variables (K : eqType) (V : Type).
Implicit Types (d : dict K V) (k : K) (v : V).

Lemma dict_get_set d k v k' :
  dict_get (dict_set d k v) k' = if k == k' then Some v else dict_get d k'.
Proof.
elim: d => [|[k0 v0] d IH] /=; first by [].
case: (k0 =P k) => [->|/eqP ne] /=; first by case: eqP.
by rewrite IH; case: (k0 =P k') => // <-; rewrite eq_sym (negPf ne).
Qed.

End DictTheory.

(** ** The spectral correlator: one bin *)

Section SpectralWorld.

Variable C : numClosedFieldType.
Variable w : nat -> C.
Hypothesis w_prim : forall N, (0 < N)%N -> N.-primitive_root (w N).

Implicit Types (wd : world C) (X : seq (seq C)).

Notation dummy := (MkPlan (C:=C) [::] [::]).

Lemma get_plan_cached wd bin N p :
  dict_get (fft_sizes (self wd)) bin = Some N ->
  dict_get (ffts (self wd)) bin = Some (Some p) ->
  get_plan bin wd = Ok (p, wd).
Proof. by move=> hN hp; rewrite /get_plan /dict_item hN /= hp. Qed.

Lemma get_plan_fresh wd bin N :
  dict_get (fft_sizes (self wd)) bin = Some N ->
  (forall p, dict_get (ffts (self wd)) bin != Some (Some p)) ->
  get_plan bin wd =
  let fft := size (heap wd) in
  let wd1 := set_heap wd (rcons (heap wd)
                 (MkPlan (mkseq (junk wd fft.*2) N) (mkseq (junk wd fft.*2.+1) N))) in
  if save_fft_plans (base (self wd))
  then Ok (fft, set_ffts wd1 (dict_set (ffts (self wd)) bin (Some fft)))
  else Ok (fft, wd1).
Proof.
move=> hN hp; rewrite /get_plan /dict_item hN /=.
by case E: (dict_get _ bin) hp => [[p|]|] // /(_ p); rewrite eqxx.
Qed.

(** The transform pipeline of [_correlate_1d] on a plan whose input buffer
    holds [d0]: the buffer ends with the circular convolution of the
    flattened frames and of their reversal, each followed by the old
    contents of the buffer beyond the frames. *)
Lemma pipeline_cconv (d0 flat : seq C) :
  (size flat <= size d0)%N ->
  let tail := drop (size flat) d0 in
  [/\ set_prefix d0 flat = Ok (flat ++ tail),
      set_prefix (flat ++ tail) (rev flat) = Ok (rev flat ++ tail) &
      FFTW_BACKWARD w [seq ab.1 * ab.2
                      | ab <- zip (FFTW_FORWARD w (flat ++ tail))
                                  (FFTW_FORWARD w (rev flat ++ tail))]
      = cconv (flat ++ tail) (rev flat ++ tail)].
Proof.
move=> le tail; rewrite /set_prefix le /= size_cat size_drop size_rev.
rewrite subnKC // le drop_size_cat //; split=> //.
by rewrite convolution_theorem // !size_cat size_rev.
Qed.

Lemma real_px X (t p : nat) :
  all (all (fun x => x \is Num.real)) X -> px X t p \is Num.real.
Proof.
move=> /allP hX; rewrite /px.
case: (ltnP t (size X)) => [tX|Xt]; last by rewrite (nth_default _ Xt) nth_nil real0.
have /allP hr := hX _ (mem_nth [::] tX).
case: (ltnP p (size (nth [::] X t))) => [pr|rp]; last by rewrite (nth_default _ rp) real0.
exact/hr/mem_nth.
Qed.

Lemma real_lag_numerator X (P k : nat) :
  all (all (fun x => x \is Num.real)) X -> lag_numerator X P k \is Num.real.
Proof.
move=> hX; rewrite /lag_numerator.
by apply: rpred_sum => i _; apply: rpred_sum => p _; rewrite realM ?real_px.
Qed.

(** The slice [res[:T*P].reshape((T, -1))[:, -1][::-1]]: entry [k] is the
    sample at the end of frame [T-1-k]. *)
Lemma slice_samples (T P : nat) (res : seq C) :
  (0 < T)%N -> (0 < P)%N -> (T * P <= size res)%N ->
  last_column_reversed T (take (T * P) res)
  = Ok [seq nth 0 res ((T - k.+1) * P + P.-1) | k <- iota 0 T].
Proof.
move=> Tpos Ppos le.
have szt : size (take (T * P) res) = (T * P)%N.
  rewrite size_take; case: ltnP => // le'.
  by apply/eqP; rewrite eqn_leq le le'.
rewrite /last_column_reversed szt (negPf (lt0n_neq0 Tpos)) modnMr /=.
rewrite mulKn // (negPf (lt0n_neq0 Ppos)); congr Ok.
apply: (@eq_from_nth _ 0); first by rewrite size_rev !size_map.
move=> k; rewrite size_rev size_map size_iota => kT.
have k1 : (T - k.+1 < T)%N by ssrnat_lia.
rewrite nth_rev ?size_map ?size_iota // (nth_map 0%N) ?size_iota // nth_iota //.
rewrite add0n [RHS](nth_map 0%N) ?size_iota // nth_iota // add0n.
have lt : ((T - k.+1) * P + P.-1 < (T - k.+1).+1 * P)%N.
  by rewrite mulSn addnC ltn_add2r ltn_predL.
by rewrite nth_take // (leq_trans lt) // leq_mul2r k1 orbT.
Qed.

(** With zero padding the samples are the correlation sums of all lags. *)
Lemma numerator_slice X (P : nat) (tail : seq C) :
  all (fun row => size row == P) X -> (0 < P)%N -> (0 < size X)%N ->
  all (all (fun x => x \is Num.real)) X ->
  all (fun x => x == 0) tail -> (size X * P <= size tail)%N ->
  last_column_reversed (size X)
    (take (size (flatten X))
          [seq 'Re z | z <- cconv (flatten X ++ tail) (rev (flatten X) ++ tail)])
  = Ok [seq lag_numerator X P k | k <- iota 0 (size X)].
Proof.
move=> hP Ppos Tpos hreal ztail Lt; set T := size X in Tpos Lt *.
have szf : size (flatten X) = (T * P)%N := size_flatten_rect hP.
set conv := cconv _ _.
have szc : size conv = (T * P + size tail)%N by rewrite size_cconv size_cat szf.
have szr : (T * P <= size [seq 'Re z | z <- conv])%N.
  by rewrite size_map szc leq_addr.
rewrite szf (slice_samples Tpos Ppos szr); congr Ok.
apply/eq_in_map => k; rewrite mem_iota add0n /= => kT.
have lt : ((T - k.+1) * P + P.-1 < (T - k.+1).+1 * P)%N.
  by rewrite mulSn addnC ltn_add2r ltn_predL.
have k1 : (T - k.+1 < T)%N by ssrnat_lia.
have idx : ((T - k.+1) * P + P.-1 < size conv)%N.
  by rewrite szc (leq_trans lt) // (leq_trans _ (leq_addr _ _)) // leq_mul2r k1 orbT.
rewrite (nth_map 0) // /conv numerator_sample //.
exact/Creal_ReP/real_lag_numerator.
Qed.

(** The denominator [np.correlate(sums, sums, "full")[T-1:]]. *)
Lemma denominator_slice X (P : nat) :
  all (fun row => size row == P) X -> (0 < P)%N -> (0 < size X)%N ->
  exists2 full,
    np_correlate_full (np_mean_axis1 X) (np_mean_axis1 X) = Ok full &
    drop (size (np_mean_axis1 X)).-1 full =
    [seq Some (lag_denominator X P k) | k <- iota 0 (size X)].
Proof.
move=> hP Ppos Tpos; rewrite (mean_rows Ppos hP).
pose ms := [seq frame_mean X P i | i <- iota 0 (size X)].
have -> : [seq Some (frame_mean X P i) | i <- iota 0 (size X)] = [seq Some x | x <- ms].
  by rewrite -map_comp.
have szms : size ms = size X by rewrite size_map size_iota.
have [|full E1 E2] := @np_correlate_means _ ms; first by rewrite szms.
rewrite E1; exists full => //; rewrite size_map E2 szms; apply/eq_in_map => k.
rewrite mem_iota add0n /= => kT; congr Some; rewrite /lag_denominator.
apply: eq_bigr => i _.
have iT : (i < size X - k)%N := ltn_ord i.
have i1 : (i < size X)%N by ssrnat_lia.
have i2 : (i + k < size X)%N by ssrnat_lia.
by rewrite !(nth_map 0%N) ?size_iota // !nth_iota.
Qed.

(** [_correlate_1d] on any plan that is long enough: the numerator is read
    from the circular convolution of the two inputs of the transform, the
    frames and their reversal, each followed by what the buffer of the plan
    held beyond them. *)
Lemma correlate_1d_plan X bin wd wd1 p (P : nat) (s : C) :
  get_plan bin wd = Ok (p, wd1) ->
  let d0 := data_direct (nth dummy (heap wd1) p) in
  let flat := flatten X in
  let tail := drop (size flat) d0 in
  let conv := cconv (flat ++ tail) (rev flat ++ tail) in
  size X = nframes (base (self wd1)) -> (0 < size X)%N -> (0 < P)%N ->
  all (fun row => size row == P) X ->
  (size X * P <= size d0)%N ->
  dict_get (scale_factors (base (self wd1))) bin = Some s ->
  exists reciprocal,
    correlate_1d w X bin wd =
    Ok ([seq xdiv (fdiv ('Re (nth 0 conv ((size X - k.+1) * P + P.-1)))
                        (lag_denominator X P k)) (Some s)
        | k <- iota 0 (size X)],
        set_heap wd1 (set_nth dummy (heap wd1) p (MkPlan conv reciprocal))).
Proof.
move=> hgp d0 flat tail conv hT Tpos Ppos hP hN hs.
have szf : size flat = (size X * P)%N := size_flatten_rect hP.
have le : (size flat <= size d0)%N by rewrite szf.
have [E1 E2 E3] := pipeline_cconv le.
rewrite /correlate_1d /mbind hgp -/d0 -/flat E1 /= E2 /= E3 -hT -/tail -/conv.
have szc : (size X * P <= size [seq 'Re z | z <- conv])%N.
  by rewrite size_map size_cconv size_cat szf leq_addr.
have numE :
  [seq nth 0 [seq 'Re z | z <- conv] ((size X - k.+1) * P + P.-1)
  | k <- iota 0 (size X)]
  = [seq 'Re (nth 0 conv ((size X - k.+1) * P + P.-1)) | k <- iota 0 (size X)].
  apply/eq_in_map => k; rewrite mem_iota add0n /= => kT.
  have lt : ((size X - k.+1) * P + P.-1 < (size X - k.+1).+1 * P)%N.
    by rewrite mulSn addnC ltn_add2r ltn_predL.
  have k1 : (size X - k.+1 < size X)%N by ssrnat_lia.
  rewrite (nth_map 0) // size_cconv size_cat szf.
  by rewrite (leq_trans lt) // (leq_trans _ (leq_addr _ _)) // leq_mul2r k1 orbT.
rewrite szf (slice_samples Tpos Ppos szc) numE /=.
have [full -> Ed] := denominator_slice hP Ppos Tpos.
rewrite /= Ed /np_divide !size_map eqxx /= /dict_item hs /=.
eexists; congr (Ok (_, _)).
by rewrite -[X in zip X _]map_comp zip_map -map_comp -map_comp.
Qed.

(** [_correlate_1d] on a plan whose input buffer is zero beyond the
    frames and at least twice as long: the curve is the quotient of the
    correlation sums of the frames and of their means, divided by the scale
    factor of the bin. *)
Lemma correlate_1d_clean X bin wd wd1 p (P : nat) (s : C) :
  get_plan bin wd = Ok (p, wd1) ->
  let d0 := data_direct (nth dummy (heap wd1) p) in
  size X = nframes (base (self wd1)) -> (0 < size X)%N -> (0 < P)%N ->
  all (fun row => size row == P) X ->
  all (all (fun x => x \is Num.real)) X ->
  (2 * (size X * P) <= size d0)%N ->
  all (fun x => x == 0) (drop (size X * P) d0) ->
  dict_get (scale_factors (base (self wd1))) bin = Some s ->
  exists plan',
    correlate_1d w X bin wd =
    Ok ([seq xdiv (fdiv (lag_numerator X P k) (lag_denominator X P k)) (Some s)
        | k <- iota 0 (size X)],
        set_heap wd1 (set_nth dummy (heap wd1) p plan')).
Proof.
move=> hgp d0 hT Tpos Ppos hP hreal hN hz hs.
have szf : size (flatten X) = (size X * P)%N := size_flatten_rect hP.
have le : (size (flatten X) <= size d0)%N by rewrite szf; ssrnat_lia.
have [E1 E2 E3] := pipeline_cconv le.
rewrite /correlate_1d /mbind hgp -/d0 E1 /= E2 /= E3 -hT.
have Lt : (size X * P <= size (drop (size (flatten X)) d0))%N.
  by rewrite size_drop szf; ssrnat_lia.
rewrite -szf in hz.
rewrite (numerator_slice hP Ppos Tpos hreal hz Lt) /=.
have [full -> Ed] := denominator_slice hP Ppos Tpos.
rewrite /= Ed /np_divide !size_map eqxx /= /dict_item hs /=.
eexists; congr (Ok (_, _)).
rewrite -[X in zip X _]map_comp zip_map -!map_comp; apply/eq_in_map => k _ /=.
by [].
Qed.

End SpectralWorld.

(** ** The spectral correlator and the dense reference *)


Section MaskTheory.

Variable F : numFieldType.
Implicit Types (qm : seq (seq nat)) (f : seq (seq F)).

Lemma has_shape_qmask_eq (sh : nat * nat) qm (bin : nat) :
  has_shape sh qm -> has_shape sh (qmask_eq qm bin).
Proof.
case/andP=> sz /allP rows; rewrite /has_shape /qmask_eq size_map sz /=.
by apply/allP => row /mapP[r /rows rsz ->]; rewrite size_map.
Qed.




Lemma size_flatten_shape (T : Type) (sh : nat * nat) (M : seq (seq T)) :
  has_shape sh M -> size (flatten M) = (sh.1 * sh.2)%N.
Proof. by case/andP=> /eqP <- /size_flatten_rect. Qed.

End MaskTheory.

Section Equivalence.

Variable C : numClosedFieldType.
Variable w : nat -> C.
Hypothesis w_prim : forall N, (0 < N)%N -> N.-primitive_root (w N).

Variables (B : BaseCorrelator C) (bs : seq nat) (qm : seq (seq nat)).
Variable frames : seq (seq (seq C)).

Hypothesis hbins : bins B = Some bs.
Hypothesis hqm : qmask B = Some qm.
Hypothesis hshape : has_shape (shape B) qm.
Hypothesis hT : size frames = nframes B.
Hypothesis Tpos : (0 < nframes B)%N.
Hypothesis hframes : all (has_shape (shape B)) frames.
Hypothesis hreal : all (all (all (fun x => x \is Num.real))) frames.
Hypothesis hpos : 0%N \notin bs.
Hypothesis hP : {in bs, forall bin, (0 < bin_count qm bin)%N}.

Lemma size_bin_pixels bin : size (bin_pixels qm bin frames) = nframes B.
Proof. by rewrite /bin_pixels size_map. Qed.

Lemma rows_bin_pixels bin :
  all (fun row => size row == bin_count qm bin) (bin_pixels qm bin frames).
Proof.
apply/allP => row /mapP[f fin ->].
rewrite size_mask ?count_map // size_map (size_flatten_shape hshape).
by rewrite (size_flatten_shape (allP hframes _ fin)).
Qed.

Lemma real_bin_pixels bin :
  all (all (fun x => x \is Num.real)) (bin_pixels qm bin frames).
Proof.
apply/allP => row /mapP[f fin ->]; apply/allP => x /mem_mask.
case/flattenP => r rin xr.
exact: (allP (allP (allP hreal _ fin) _ rin) _ xr).
Qed.


Lemma get_pixels_in_bin_bin (slf : DenseFFTwCorrelator C) bin :
  base slf = B -> bin \in bs ->
  get_pixels_in_bin slf frames bin true true = Ok (bin_pixels qm bin frames).
Proof.
move=> hb inb; rewrite /get_pixels_in_bin hb hbins hqm inb hT eqxx /=.
have bpos : (0 < bin)%N by rewrite lt0n; apply: contraNneq hpos => <-.
rewrite bpos /= (negPf (lt0n_neq0 bpos)).
case: frames hT hframes Tpos => [<- //|f fs] _ hfs _; rewrite hfs /=.
have hall : all (fun row => size row == size [seq q == bin | q <- flatten qm])
                [seq flatten frame | frame <- f :: fs].
  apply/allP => row /mapP[g gin ->].
  rewrite size_map (size_flatten_shape hshape).
  by rewrite (size_flatten_shape (allP hfs _ gin)).
by rewrite /= in hall; rewrite hall /bin_pixels /= -map_comp.
Qed.

Variable sc : nat -> C.
Hypothesis hscale :
  {in bs, forall bin, dict_get (scale_factors B) bin = Some (sc bin)}.

Lemma nextpow2_ge (n : nat) : (n <= nextpow2 n)%N.
Proof. exact: up_logP. Qed.

(** One bin of [correlate] in a state where the plan of the bin is not
    cached: the curve of the reference, and the other bins stay unused. *)
Lemma spectral_step (bin : nat) (bs' : seq nat) (wd : world C) :
  bin \in bs -> bin \notin bs' ->
  plans_unused B qm (bin :: bs') wd ->
  exists2 wd',
    correlate_bin w frames bin wd
    = Ok (reference_curve (bin_pixels qm bin frames) (bin_count qm bin)
                          (sc bin), wd') &
    plans_unused B qm bs' wd'.
Proof.
move=> inb nin [hb hfs hff hj].
rewrite /correlate_bin /mbind /mlift (get_pixels_in_bin_bin hb inb) /=.
set X := bin_pixels qm bin frames; set P := bin_count qm bin.
set N := nextpow2 (2 * nframes B * P).
have hN : dict_get (fft_sizes (self wd)) bin = Some N by rewrite hfs ?mem_head.
have hnone p : dict_get (ffts (self wd)) bin != Some (Some p).
  by apply: hff; rewrite mem_head.
have szX : size X = nframes B := size_bin_pixels bin.
have Xpos : (0 < size X)%N by rewrite szX.
have Ppos : (0 < P)%N := hP inb.
have NP : (2 * (size X * P) <= N)%N by rewrite szX mulnA nextpow2_ge.
pose plan0 := MkPlan (mkseq (junk wd (size (heap wd)).*2) N)
                     (mkseq (junk wd (size (heap wd)).*2.+1) N).
have [wd1 [hgp [hb1 hfs1 hj1 hh1 hff1]]] :
  exists wd1, get_plan bin wd = Ok (size (heap wd), wd1) /\
    [/\ base (self wd1) = B, fft_sizes (self wd1) = fft_sizes (self wd),
        junk wd1 = junk wd, heap wd1 = rcons (heap wd) plan0 &
        forall b', b' != bin ->
          dict_get (ffts (self wd1)) b' = dict_get (ffts (self wd)) b'].
  rewrite (get_plan_fresh hN hnone) /=; case: ifP => _; eexists; split=> //.
  by split=> //= b' ne; rewrite dict_get_set eq_sym (negPf ne).
have d0E : data_direct (nth (MkPlan [::] [::]) (heap wd1) (size (heap wd)))
           = nseq N 0.
  rewrite hh1 nth_rcons ltnn eqxx /=.
  by apply: (@eq_from_nth _ 0); rewrite size_mkseq ?size_nseq // => i iN;
     rewrite nth_mkseq // nth_nseq iN hj.
have hT1 : size X = nframes (base (self wd1)) by rewrite hb1.
have hN' : (2 * (size X * P) <=
            size (data_direct (nth (MkPlan [::] [::]) (heap wd1) (size (heap wd)))))%N.
  by rewrite d0E size_nseq.
have hz' : all (fun x => x == 0)
             (drop (size X * P)
                (data_direct (nth (MkPlan [::] [::]) (heap wd1) (size (heap wd))))).
  by rewrite d0E; apply/allP => x /mem_drop; rewrite mem_nseq => /andP[_].
have hs' : dict_get (scale_factors (base (self wd1))) bin = Some (sc bin).
  by rewrite hb1 hscale.
have [plan' ->] := correlate_1d_clean w_prim hgp hT1 Xpos Ppos
                     (rows_bin_pixels bin) (real_bin_pixels bin) hN' hz' hs'.
rewrite /= /assign_row size_map size_iota -hT1 eqxx /=.
eexists; first by [].
split=> //=; rewrite ?hfs1 ?hj1 //.
- by move=> b' b'in; apply: hfs; rewrite in_cons b'in orbT.
- move=> b' b'in p; have ne : b' != bin by apply: contraNneq nin => <-.
  by rewrite (hff1 _ ne); apply: hff; rewrite in_cons b'in orbT.
Qed.

(** [correlate] over bins that are all unused. *)
Lemma spectral_rows (bs' : seq nat) (wd : world C) :
  uniq bs' -> {subset bs' <= bs} ->
  plans_unused B qm bs' wd ->
  exists wd',
    mmap (correlate_bin w frames) bs' wd
    = Ok ([seq reference_curve (bin_pixels qm bin frames) (bin_count qm bin)
                               (sc bin) | bin <- bs'], wd').
Proof.
elim: bs' wd => [|bin bs' IH] wd /=; first by exists wd.
case/andP=> nin un sub inv.
have inb : bin \in bs by apply: sub; rewrite mem_head.
have [wd1 E1 inv1] := spectral_step inb nin inv.
have sub' : {subset bs' <= bs} by move=> x xin; apply: sub; rewrite in_cons xin orbT.
have [wd2 E2] := IH wd1 un sub' inv1.
by exists wd2; rewrite {1}/mbind E1 {1}/mbind E2.
Qed.

End Equivalence.

(** ** Construction of the spectral correlator *)

Section InitTheory.

Variable C : numClosedFieldType.
Variables (B : BaseCorrelator C) (bs : seq nat) (qm : seq (seq nat)).

Hypothesis hqm : qmask B = Some qm.

Lemma init_fft_plans_bin_default (b : nat) (wd : world C) :
  base (self wd) = B -> b != 0%N ->
  init_fft_plans_bin false b wd =
  Ok (tt, set_ffts (set_fft_sizes wd
                      (dict_set (fft_sizes (self wd)) b
                         (nextpow2 (2 * nframes B * bin_count qm b))))
                   (dict_set (ffts (self wd)) b None)).
Proof.
by move=> hb b0; rewrite /init_fft_plans_bin /mbind /mlift hb hqm (negPf b0) /= hb.
Qed.

(** The loop of [_init_fft_plans] without precomputed plans: every bin of
    the loop gets its buffer length and the entry [None]; nothing is
    allocated. *)
Lemma init_loop_default (bs' : seq nat) (wd : world C) :
  base (self wd) = B -> 0%N \notin bs' ->
  exists wd',
    [/\ mmap (init_fft_plans_bin (C:=C) false) bs' wd = Ok (nseq (size bs') tt, wd'),
        base (self wd') = B, junk wd' = junk wd,
        forall bin, dict_get (fft_sizes (self wd')) bin =
                    if bin \in bs'
                    then Some (nextpow2 (2 * nframes B * bin_count qm bin))
                    else dict_get (fft_sizes (self wd)) bin
      & forall bin, dict_get (ffts (self wd')) bin =
                    if bin \in bs' then Some None
                    else dict_get (ffts (self wd)) bin].
Proof.
elim: bs' wd => [|b bs' IH] wd hb /=; first by exists wd; split.
rewrite in_cons negb_or eq_sym => /andP[b0 nin].
set wd1 := set_ffts (set_fft_sizes wd
               (dict_set (fft_sizes (self wd)) b
                  (nextpow2 (2 * nframes B * bin_count qm b))))
             (dict_set (ffts (self wd)) b None).
have [wd' [E hb' hj hfs hff]] := IH wd1 hb nin.
exists wd'; split=> //.
- by rewrite {1}/mbind init_fft_plans_bin_default // -/wd1 /mbind E.
- move=> bin; rewrite hfs in_cons /= dict_get_set.
  by case: (bin \in bs'); rewrite ?orbT // orbF eq_sym; case: eqP => // ->.
- move=> bin; rewrite hff in_cons /= dict_get_set.
  by case: (bin \in bs'); rewrite ?orbT // orbF eq_sym; case: eqP.
Qed.

Lemma init_fft_plans_default (jnk : nat -> nat -> C) :
  bins B = Some bs -> 0%N \notin bs -> (forall a i, jnk a i = 0) ->
  exists2 wd0,
    init_fft_plans false (MkWorld (MkFFTw B false [::] [::]) [::] jnk)
    = Ok (tt, wd0) &
    plans_unused B qm bs wd0.
Proof.
move=> hbins h0 hj; rewrite /init_fft_plans /= hbins.
have [wd' [E hb' hj' hfs hff]] :=
  @init_loop_default bs (MkWorld (MkFFTw B false [::] [::]) [::] jnk) erefl h0.
exists wd'; first by rewrite /mbind E.
split=> //.
- by move=> bin inb; rewrite hfs inb.
- by move=> bin inb p; rewrite hff inb.
- by move=> a i; rewrite hj'.
Qed.

End InitTheory.

(** ** The first [correlate] of a new spectral correlator *)

Section FirstCall.

Variable C : numClosedFieldType.
Variable w : nat -> C.
Hypothesis w_prim : forall N, (0 < N)%N -> N.-primitive_root (w N).

Variable Args : Type.
Variable set_parameters : Args -> result (BaseCorrelator C).

Variables (b0 : BaseCorrelator C) (bs : seq nat) (qm : seq (seq nat)).
Variable frames : seq (seq (seq C)).

Hypothesis hbins : bins b0 = Some bs.
Hypothesis hqm : qmask b0 = Some qm.
Hypothesis hshape : has_shape (shape b0) qm.
Hypothesis hT : size frames = nframes b0.
Hypothesis Tpos : (0 < nframes b0)%N.
Hypothesis hframes : all (has_shape (shape b0)) frames.
Hypothesis hpos : 0%N \notin bs.
Hypothesis hP : {in bs, forall bin, (0 < bin_count qm bin)%N}.


Variable sc : nat -> C.
Hypothesis hscale :
  {in bs, forall bin, dict_get (scale_factors b0) bin = Some (sc bin)}.
Hypothesis hreal : all (all (all (fun x => x \is Num.real))) frames.
Hypothesis huniq : uniq bs.


End FirstCall.

(** ** Precomputed and cached plans *)

Section CleanPlans.

Variable C : numClosedFieldType.
Variable w : nat -> C.
Hypothesis w_prim : forall N, (0 < N)%N -> N.-primitive_root (w N).

Variables (B : BaseCorrelator C) (bs : seq nat) (qm : seq (seq nat)).
Variable frames : seq (seq (seq C)).
Variable sc : nat -> C.

Hypothesis hbins : bins B = Some bs.
Hypothesis hqm : qmask B = Some qm.
Hypothesis hshape : has_shape (shape B) qm.
Hypothesis hT : size frames = nframes B.
Hypothesis Tpos : (0 < nframes B)%N.
Hypothesis hframes : all (has_shape (shape B)) frames.
Hypothesis hreal : all (all (all (fun x => x \is Num.real))) frames.
Hypothesis hpos : 0%N \notin bs.
Hypothesis hP : {in bs, forall bin, (0 < bin_count qm bin)%N}.
Hypothesis hscale :
  {in bs, forall bin, dict_get (scale_factors B) bin = Some (sc bin)}.

Notation dummy := (MkPlan (C:=C) [::] [::]).
Notation Nof bin := (nextpow2 (2 * nframes B * bin_count qm bin)).

(** The plan that [get_plan] returns in a clean state is clean, and the
    plans of the other bins are not touched. *)
Lemma get_plan_clean (bin : nat) (bs' : seq nat) (wd : world C) :
  bin \notin bs' -> plans_clean B qm (bin :: bs') wd ->
  exists p wd1,
    [/\ get_plan bin wd = Ok (p, wd1),
        (p < size (heap wd1))%N,
        data_direct (nth dummy (heap wd1) p) = nseq (Nof bin) 0,
        plans_clean B qm bs' wd1
      & {in bs', forall b' p', dict_get (ffts (self wd1)) b' = Some (Some p') ->
                               p' != p}].
Proof.
move=> nin [hb hfs hpl hinj hj].
have hN : dict_get (fft_sizes (self wd)) bin = Some (Nof bin).
  by rewrite hfs ?mem_head.
have sub b' : b' \in bs' -> b' \in bin :: bs' by move=> h; rewrite in_cons h orbT.
have fresh : (forall p, dict_get (ffts (self wd)) bin != Some (Some p)) ->
  exists p wd1,
    [/\ get_plan bin wd = Ok (p, wd1),
        (p < size (heap wd1))%N,
        data_direct (nth dummy (heap wd1) p) = nseq (Nof bin) 0,
        plans_clean B qm bs' wd1
      & {in bs', forall b' p', dict_get (ffts (self wd1)) b' = Some (Some p') ->
                               p' != p}].
  move=> hnone.
  pose plan0 := MkPlan (mkseq (junk wd (size (heap wd)).*2) (Nof bin))
                       (mkseq (junk wd (size (heap wd)).*2.+1) (Nof bin)).
  have d0E : data_direct plan0 = nseq (Nof bin) 0.
    by apply: (@eq_from_nth _ 0); rewrite size_mkseq ?size_nseq // => i iN;
       rewrite nth_mkseq // nth_nseq iN hj.
  have [wd1 [hgp [hb1 hfs1 hj1 hh1 hff1]]] :
    exists wd1, get_plan bin wd = Ok (size (heap wd), wd1) /\
      [/\ base (self wd1) = B, fft_sizes (self wd1) = fft_sizes (self wd),
          junk wd1 = junk wd, heap wd1 = rcons (heap wd) plan0 &
          forall b', b' != bin ->
            dict_get (ffts (self wd1)) b' = dict_get (ffts (self wd)) b'].
    rewrite (get_plan_fresh hN hnone) /=; case: ifP => _; eexists; split=> //.
    by split=> //= b' ne; rewrite dict_get_set eq_sym (negPf ne).
  have ne b' : b' \in bs' -> b' != bin by move=> h; apply: contraNneq nin => <-.
  exists (size (heap wd)), wd1; split=> //.
  - by rewrite hh1 size_rcons.
  - by rewrite hh1 nth_rcons ltnn eqxx.
  - split=> //.
    + by move=> b' /sub; rewrite hfs1; apply: hfs.
    + move=> b' b'in p'; rewrite (hff1 _ (ne _ b'in)) => E'.
      have [plt pd] := hpl _ (sub _ b'in) _ E'.
      by rewrite hh1 size_rcons (leq_trans plt) // nth_rcons plt.
    + move=> b1 b2 b1in b2in p'.
      rewrite (hff1 _ (ne _ b1in)) (hff1 _ (ne _ b2in)).
      exact: hinj (sub _ b1in) (sub _ b2in) p'.
    + by move=> a i; rewrite hj1.
  - move=> b' b'in p'; rewrite (hff1 _ (ne _ b'in)) => E'.
    have [plt _] := hpl _ (sub _ b'in) _ E'.
    by rewrite neq_ltn plt.
case Ef: (dict_get (ffts (self wd)) bin) => [[p|]|]; last 2 first.
- by apply: fresh => p; rewrite Ef.
- by apply: fresh => p; rewrite Ef.
exists p, wd; have [plt pd] := hpl _ (mem_head _ _) _ Ef.
split=> //; first exact: get_plan_cached hN Ef.
  split=> //.
  - by move=> b' /sub; apply: hfs.
  - by move=> b' /sub; apply: hpl.
  - by move=> b1 b2 /sub h1 /sub h2; apply: hinj.
move=> b' b'in p' E'; apply/eqP => pp; rewrite pp in E'.
have bb := hinj _ _ (sub _ b'in) (mem_head _ _) p E' Ef.
by rewrite bb in b'in; rewrite b'in in nin.
Qed.

(** One bin of [correlate] in a clean state: the curve of the reference,
    and the plans of the other bins stay clean. *)
Lemma clean_step (bin : nat) (bs' : seq nat) (wd : world C) :
  bin \in bs -> bin \notin bs' ->
  plans_clean B qm (bin :: bs') wd ->
  exists2 wd',
    correlate_bin w frames bin wd
    = Ok (reference_curve (bin_pixels qm bin frames) (bin_count qm bin)
                          (sc bin), wd') &
    plans_clean B qm bs' wd'.
Proof.
move=> inb nin inv; have hb : base (self wd) = B by case: inv.
rewrite /correlate_bin /mbind /mlift.
rewrite (get_pixels_in_bin_bin hbins hqm hshape hT Tpos hframes hpos hb inb) /=.
set X := bin_pixels qm bin frames; set P := bin_count qm bin.
have szX : size X = nframes B := size_bin_pixels qm hT bin.
have Xpos : (0 < size X)%N by rewrite szX.
have Ppos : (0 < P)%N := hP inb.
have NP : (2 * (size X * P) <= Nof bin)%N by rewrite szX mulnA nextpow2_ge.
have [p [wd1 [hgp plt d0E [hb1 hfs1 hpl1 hinj1 hj1] hne]]] :=
  get_plan_clean nin inv.
have hT1 : size X = nframes (base (self wd1)) by rewrite hb1.
have hN' : (2 * (size X * P) <= size (data_direct (nth dummy (heap wd1) p)))%N.
  by rewrite d0E size_nseq.
have hz' : all (fun x => x == 0)
             (drop (size X * P) (data_direct (nth dummy (heap wd1) p))).
  by rewrite d0E; apply/allP => x /mem_drop; rewrite mem_nseq => /andP[_].
have hs' : dict_get (scale_factors (base (self wd1))) bin = Some (sc bin).
  by rewrite hb1 hscale.
have [plan' ->] := correlate_1d_clean w_prim hgp hT1 Xpos Ppos
                     (rows_bin_pixels hshape hframes bin)
                     (real_bin_pixels qm hreal bin) hN' hz' hs'.
rewrite /= /assign_row size_map size_iota -hT1 eqxx /=.
eexists; first by [].
have szh : size (set_nth dummy (heap wd1) p plan') = size (heap wd1).
  by rewrite size_set_nth; apply/maxn_idPr.
split=> //=.
- move=> b' b'in p' E'; have [plt' pd'] := hpl1 _ b'in _ E'.
  by rewrite szh nth_set_nth /= (negPf (hne _ b'in _ E')).
Qed.

(** [correlate] over bins whose plans are clean. *)
Lemma clean_rows (bs' : seq nat) (wd : world C) :
  uniq bs' -> {subset bs' <= bs} ->
  plans_clean B qm bs' wd ->
  exists wd',
    mmap (correlate_bin w frames) bs' wd
    = Ok ([seq reference_curve (bin_pixels qm bin frames) (bin_count qm bin)
                               (sc bin) | bin <- bs'], wd').
Proof.
elim: bs' wd => [|bin bs' IH] wd /=; first by exists wd.
case/andP=> nin un sub inv.
have inb : bin \in bs by apply: sub; rewrite mem_head.
have [wd1 E1 inv1] := clean_step inb nin inv.
have sub' : {subset bs' <= bs} by move=> x xin; apply: sub; rewrite in_cons xin orbT.
have [wd2 E2] := IH wd1 un sub' inv1.
by exists wd2; rewrite {1}/mbind E1 {1}/mbind E2.
Qed.

End CleanPlans.

Lemma dict_set_twice (K : eqType) (V : Type) (d : dict K V) (k : K) (v v' : V) :
  dict_set (dict_set d k v) k v' = dict_set d k v'.
Proof.
elim: d => [|[k0 v0] d IH] /=; first by rewrite eqxx.
case: (k0 =P k) => [_|/eqP ne] /=; first by rewrite eqxx.
by rewrite (negPf ne) IH.
Qed.

Section PrecomputeInit.

Variable C : numClosedFieldType.
Variables (B : BaseCorrelator C) (qm : seq (seq nat)).

Hypothesis hqm : qmask B = Some qm.

Notation dummy := (MkPlan (C:=C) [::] [::]).
Notation Nof bin := (nextpow2 (2 * nframes B * bin_count qm bin)).

(** One bin of [_init_fft_plans] with precomputed plans: the bin gets its
    buffer length and a new plan, behind the plans of the bins before. *)
Lemma init_fft_plans_bin_precompute (b : nat) (done : seq nat) (wd : world C) :
  plans_precomputed B qm done wd -> b \notin done -> b != 0%N ->
  exists wd',
    [/\ init_fft_plans_bin true b wd = Ok (tt, wd'),
        plans_precomputed B qm (b :: done) wd',
        junk wd' = junk wd
      & size (heap wd') = (size (heap wd)).+1].
Proof.
move=> [hb hfs hex hpl hinj] nin b0.
set wda := set_fft_sizes wd (dict_set (fft_sizes (self wd)) b (Nof b)).
have hN : dict_get (fft_sizes (self wda)) b = Some (Nof b).
  by rewrite /= dict_get_set eqxx.
have hnone p : dict_get (ffts (self wda)) b != Some (Some p).
  by apply/eqP => /hpl[_ bin _]; rewrite bin in nin.
pose fft := size (heap wd).
pose plan0 := MkPlan (mkseq (junk wd fft.*2) (Nof b))
                     (mkseq (junk wd fft.*2.+1) (Nof b)).
pose wd' := MkWorld (MkFFTw (base (self wd)) (precompute_fft_plans (self wd))
                       (dict_set (fft_sizes (self wd)) b (Nof b))
                       (dict_set (ffts (self wd)) b (Some fft)))
                    (rcons (heap wd) plan0) (junk wd).
have E : init_fft_plans_bin true b wd = Ok (tt, wd').
  rewrite /init_fft_plans_bin /mbind /mlift hb hqm (negPf b0) /= hb.
  rewrite -/(bin_count qm b) -/wda (get_plan_fresh hN hnone) /=.
  by case: ifP => _ /=; rewrite /set_ffts /= /wd' /plan0 /fft hb ?dict_set_twice.
exists wd'; split=> //=; last by rewrite size_rcons.
split=> //=.
- move=> bin; rewrite in_cons dict_get_set (eq_sym b bin).
  by case: (bin =P b) => [-> //|_] /=; apply: hfs.
- move=> bin; rewrite in_cons dict_get_set (eq_sym b bin).
  by case: (bin =P b) => [_ _|_] /=; [exists fft | apply: hex].
- move=> bin p; rewrite dict_get_set; case: (b =P bin) => [<- [<-]|ne E'].
    by rewrite size_rcons ltnSn mem_head nth_rcons ltnn eqxx.
  have [plt bin_in pE] := hpl _ _ E'.
  by rewrite size_rcons (leq_trans plt) // in_cons bin_in orbT nth_rcons plt.
- move=> b1 b2 p; rewrite !dict_get_set.
  case: (b =P b1) => [<-|_]; case: (b =P b2) => [<-|_] //.
  + by case=> <- /hpl[]; rewrite /fft ltnn.
  + by move=> /hpl[plt _ _] [pE]; rewrite -pE /fft ltnn in plt.
  + exact: hinj.
Qed.

(** The loop of [_init_fft_plans] with precomputed plans. *)
Lemma init_loop_precompute (bs' done : seq nat) (wd : world C) :
  plans_precomputed B qm done wd -> uniq bs' -> 0%N \notin bs' ->
  {in bs', forall b, b \notin done} ->
  exists wd',
    [/\ mmap (init_fft_plans_bin (C:=C) true) bs' wd
        = Ok (nseq (size bs') tt, wd'),
        plans_precomputed B qm (rev bs' ++ done) wd',
        junk wd' = junk wd
      & size (heap wd') = (size (heap wd) + size bs')%N].
Proof.
elim: bs' done wd => [|b bs' IH] done wd inv /=.
  by move=> _ _ _; exists wd; split; rewrite ?addn0.
case/andP=> bnin un; rewrite in_cons negb_or eq_sym => /andP[b0 nin0] fresh.
have bd : b \notin done by apply: fresh; rewrite mem_head.
have [wd1 [E1 inv1 hj1 hs1]] := init_fft_plans_bin_precompute inv bd b0.
have fresh' : {in bs', forall b', b' \notin b :: done}.
  move=> b' b'in; rewrite in_cons negb_or fresh ?in_cons ?b'in ?orbT // andbT.
  by apply: contraNneq bnin => <-.
have [wd2 [E2 inv2 hj2 hs2]] := IH _ _ inv1 un nin0 fresh'.
exists wd2; split.
- by rewrite {1}/mbind E1 {1}/mbind E2.
- by rewrite rev_cons cat_rcons.
- by rewrite hj2.
- by rewrite hs2 hs1 addSnnS.
Qed.

End PrecomputeInit.

Section PrecomputedCorrelator.

Variable C : numClosedFieldType.
Variable w : nat -> C.
Hypothesis w_prim : forall N, (0 < N)%N -> N.-primitive_root (w N).

Variable Args : Type.
Variable set_parameters : Args -> result (BaseCorrelator C).

Variables (b0 : BaseCorrelator C) (bs : seq nat) (qm : seq (seq nat)).

Hypothesis hbins : bins b0 = Some bs.
Hypothesis hqm : qmask b0 = Some qm.
Hypothesis hpos : 0%N \notin bs.
Hypothesis huniq : uniq bs.

Lemma precomputed_init (env : facilities) (jnk : nat -> nat -> C)
    (args : Args) :
  pyfftw env -> set_parameters args = Ok b0 ->
  exists wd0,
    [/\ DenseFFTwCorrelator_init set_parameters env jnk args true = Ok wd0,
        plans_precomputed (configure_extra_options b0) qm bs wd0,
        junk wd0 = jnk
      & size (heap wd0) = size bs].
Proof.
move=> hfftw hargs; rewrite /DenseFFTwCorrelator_init hfftw hargs /=.
set B := configure_extra_options b0.
rewrite /init_fft_plans /= hbins.
set wdi := MkWorld (MkFFTw B true [::] [::]) [::] jnk.
have inv0 : plans_precomputed B qm [::] wdi by split.
have [wd0 [E [hb hfs hex hpl hinj] hj hs]] :=
  init_loop_precompute (B := B) hqm inv0 huniq hpos (fun _ _ => isT).
exists wd0; rewrite {1}/mbind E /=; split=> //.
split=> //.
- by move=> bin inb; apply: hfs; rewrite cats0 mem_rev.
- by move=> bin inb; apply: hex; rewrite cats0 mem_rev.
- move=> bin p /hpl[plt]; rewrite cats0 mem_rev => inb pE.
  by split.
Qed.

Variable frames : seq (seq (seq C)).
Variable sc : nat -> C.

Hypothesis hshape : has_shape (shape b0) qm.
Hypothesis hT : size frames = nframes b0.
Hypothesis Tpos : (0 < nframes b0)%N.
Hypothesis hframes : all (has_shape (shape b0)) frames.
Hypothesis hreal : all (all (all (fun x => x \is Num.real))) frames.
Hypothesis hP : {in bs, forall bin, (0 < bin_count qm bin)%N}.
Hypothesis hscale :
  {in bs, forall bin, dict_get (scale_factors b0) bin = Some (sc bin)}.

Lemma precomputed_rows (env : facilities) (args : Args) :
  pyfftw env -> set_parameters args = Ok b0 ->
  exists wd0 wd1,
    DenseFFTwCorrelator_init set_parameters env (fun _ _ => 0) args true
    = Ok wd0 /\
    correlate w frames wd0 =
    Ok ([seq reference_curve (bin_pixels qm bin frames) (bin_count qm bin)
                             (sc bin) | bin <- bs], wd1).
Proof.
move=> hfftw hargs.
have [wd0 [E0 [hb hfs hex hpl hinj] hj hs]] :=
  precomputed_init (fun _ _ => 0) hfftw hargs.
set B := configure_extra_options b0 in hb hfs hex hpl hinj.
have inv : plans_clean B qm bs wd0.
  split=> //.
  - move=> bin inb p /hpl[plt _ ->] /=; split=> //.
    apply: (@eq_from_nth _ 0); rewrite size_mkseq ?size_nseq // => i iN.
    by rewrite nth_mkseq // nth_nseq iN hj.
  - by move=> b1 b2 _ _ p; apply: hinj.
  - by move=> a i; rewrite hj.
have [wd1 E1] :=
  clean_rows w_prim (B := B) hbins hqm hshape hT Tpos hframes hreal hpos hP
             hscale huniq (fun x h => h) inv.
by exists wd0, wd1; split=> //; rewrite /correlate hb /= hbins.
Qed.

End PrecomputedCorrelator.

(** ** The diagonal reduction: the claim *)



(** ** The dense reference correlator: instances *)

Lemma py_dense_correlator_curve_witness :
  [/\ has_shape (1%N, 2%N) mask_both,
      all (has_shape (1%N, 2%N)) (frames_1x2 rat),
      (0 < pixel_count mask_both)%N
    & exists2 curve,
        py_dense_correlator (frames_1x2 rat) mask_both = Ok curve &
        size curve = 2%N /\
        forall k, (k < 2)%N ->
          nth None curve k =
          if lag_denominator [seq masked_pixels mask_both f | f <- frames_1x2 rat]
                             (pixel_count mask_both) k == 0
          then None
          else Some (lag_numerator
                       [seq masked_pixels mask_both f | f <- frames_1x2 rat]
                       (pixel_count mask_both) k
                     / lag_denominator
                         [seq masked_pixels mask_both f | f <- frames_1x2 rat]
                         (pixel_count mask_both) k
                     / (pixel_count mask_both)%:R)].
Proof.
split; [reflexivity | reflexivity | reflexivity |].
exact: (@py_dense_correlator_curve rat (1%N, 2%N) mask_both (frames_1x2 rat)
          isT isT isT).
Defined.

Lemma py_dense_correlator_last_lag_witness :
  [/\ has_shape (1%N, 2%N) mask_both,
      all (has_shape (1%N, 2%N)) (frames_1x2 rat),
      (0 < pixel_count mask_both)%N, (0 < size (frames_1x2 rat))%N
    & exists2 curve,
        py_dense_correlator (frames_1x2 rat) mask_both = Ok curve &
        nth None curve 1 =
        if frame_mean [seq masked_pixels mask_both f | f <- frames_1x2 rat]
                      (pixel_count mask_both) 0
           * frame_mean [seq masked_pixels mask_both f | f <- frames_1x2 rat]
                        (pixel_count mask_both) 1 == 0
        then None
        else Some ((\sum_(p < pixel_count mask_both)
                      px [seq masked_pixels mask_both f | f <- frames_1x2 rat] 0 p
                      * px [seq masked_pixels mask_both f | f <- frames_1x2 rat] 1 p)
                   / (frame_mean
                        [seq masked_pixels mask_both f | f <- frames_1x2 rat]
                        (pixel_count mask_both) 0
                      * frame_mean
                          [seq masked_pixels mask_both f | f <- frames_1x2 rat]
                          (pixel_count mask_both) 1)
                   / (pixel_count mask_both)%:R)].
Proof.
split; [reflexivity | reflexivity | reflexivity | reflexivity |].
exact: (@py_dense_correlator_last_lag rat (1%N, 2%N) mask_both (frames_1x2 rat)
          isT isT isT isT).
Defined.

(** C7, the counterexample: one pixel that is dark in the only frame.  The
    mask selects exactly one pixel, and the curve is not [1.0] at lag 0: the
    quotient is [0 / 0], not a finite number. *)
Lemma py_dense_single_dark_pixel :
  pixel_count mask_one = 1%N /\
  py_dense_correlator (dark_frame rat) mask_one = Ok [:: None].
Proof. by split; vm_compute. Qed.

Lemma py_dense_single_pixel_witness :
  [/\ has_shape (1%N, 2%N) mask_second,
      all (has_shape (1%N, 2%N)) (frames_1x2 rat),
      pixel_count mask_second = 1%N
    & exists2 curve,
        py_dense_correlator (frames_1x2 rat) mask_second = Ok curve &
        size curve = 2%N /\
        forall k, (k < 2)%N ->
          nth None curve k =
          if \sum_(i < 2 - k)
               px [seq masked_pixels mask_second f | f <- frames_1x2 rat] i 0
               * px [seq masked_pixels mask_second f | f <- frames_1x2 rat]
                    (i + k) 0 == 0
          then None else Some 1].
Proof.
split; [reflexivity | reflexivity | reflexivity |].
exact: (@py_dense_single_pixel rat (1%N, 2%N) mask_second (frames_1x2 rat)
          isT isT erefl).
Defined.

(** ** Missing facilities *)

(** C9.  Each accelerated correlator raises [ImportError] in its
    constructor when the module it needs is missing: [DenseFFTwCorrelator]
    without pyfftw, [DenseCuFFTCorrelator] without CUFFT,
    [CublasMatMulCorrelator] without scikit-cuda.  No correlator is
    returned, whatever the arguments and the other modules. *)
Theorem missing_facility_raises (C : numClosedFieldType) (Args : Type)
    (set_parameters : Args -> result (BaseCorrelator C))
    (updiv : nat -> nat -> nat) (CUFFT_new : nat -> FFTwPlan C)
    (fw cu cb pa : bool) (h : nat) (jnk : nat -> nat -> C) (args : Args)
    (precompute : bool) :
  [/\ DenseFFTwCorrelator_init set_parameters (MkFacilities false cu cb pa h)
        jnk args precompute = Raise ImportError,
      DenseCuFFTCorrelator_init set_parameters CUFFT_new
        (MkFacilities fw false cb pa h) args precompute = Raise ImportError
    & CublasMatMulCorrelator_init set_parameters updiv
        (MkFacilities fw cu false pa h) args = Raise ImportError].
Proof. by []. Qed.

(** ** The bin 0 *)

(** C10.  For a stack of frames of the correlator, [get_pixels_in_bin] with
    the bin value 0 returns all the pixels of every frame, [rows * cols]
    of them per frame, whatever mask the correlator holds; and [correlate]
    on a correlator without bins correlates these pixels as its single
    bin. *)
Theorem get_pixels_in_bin_zero (C : numClosedFieldType) (w : nat -> C)
    (wd : world C) (frames : seq (seq (seq C))) (check convert : bool) :
  size frames = nframes (base (self wd)) -> (0 < size frames)%N ->
  all (has_shape (shape (base (self wd)))) frames ->
  [/\ get_pixels_in_bin (self wd) frames 0 check convert
      = Ok [seq flatten f | f <- frames],
      all (fun row => size row
                      == ((shape (base (self wd))).1 * (shape (base (self wd))).2)%N)
          [seq flatten f | f <- frames]
    & bins (base (self wd)) = None ->
      correlate w frames wd =
      mmap (fun bin => mbind (correlate_1d w [seq flatten f | f <- frames] bin)
              (fun curve wd' =>
                 mlift (assign_row (nframes (base (self wd'))) curve) wd'))
           [:: 0%N] wd].
Proof.
move=> hT Tpos hf.
have E c cv : get_pixels_in_bin (self wd) frames 0 c cv
              = Ok [seq flatten f | f <- frames].
  rewrite /get_pixels_in_bin /= hT eqxx hf /=.
  by case: frames Tpos {hT hf} => [|f fs] //; case: c.
split=> //.
- by apply/allP => row /mapP[f /(allP hf) hs ->]; rewrite (size_flatten_shape hs).
- by move=> hb; rewrite /correlate hb /= /correlate_bin /mbind /mlift /= E.
Qed.

(** ** The scale factor *)

Section ScaleTheory.

Variable C : numClosedFieldType.
Variable w : nat -> C.
Implicit Types (wd : world C) (c s : C).

Lemma dict_get_scale (d : dict nat C) (bin k : nat) c :
  dict_get [seq (kv.1, if kv.1 == bin then c * kv.2 else kv.2) | kv <- d] k =
  omap (fun v => if k == bin then c * v else v) (dict_get d k).
Proof.
elim: d => [|[k0 v0] d IH] //=.
by case: (k0 =P k) => [->|_].
Qed.

Lemma xdiv_scale (q : option C) c s :
  c != 0 -> xdiv q (Some (c * s)) = xdiv (xdiv q (Some s)) (Some c).
Proof.
move=> c0; case: q => [x|] //; rewrite /xdiv /fdiv mulf_eq0 (negPf c0) /=.
by case: ifP => // _; rewrite invfM mulrA mulrAC.
Qed.

Lemma get_plan_scale bin c wd :
  get_plan bin (scale_bin bin c wd) =
  match get_plan bin wd with
  | Ok (p, wd1) => Ok (p, scale_bin bin c wd1)
  | Raise e => Raise e
  end.
Proof.
rewrite /get_plan /= /dict_item; case: (dict_get (fft_sizes _) bin) => //= N.
by case: (dict_get (ffts _) bin) => [[p|]|] //=; case: (save_fft_plans _).
Qed.

End ScaleTheory.

(** C8.  Multiplying the scale factor of a bin by a positive constant [c]
    and changing nothing else divides every entry of the curve that
    [_correlate_1d] returns for the bin by [c], and leaves the state it
    reaches otherwise the same: the factor enters only in the last
    division.  The dense path [MatMulCorrelator.correlate] returns the same
    result for both sets of scale factors. *)
Theorem scale_factor_divides_curve (C : numClosedFieldType) (w : nat -> C)
    (wd : world C) (X : seq (seq C)) (frames : seq (seq (seq C)))
    (bin : nat) (c : C) :
  0 < c ->
  correlate_1d w X bin (scale_bin bin c wd) =
  match correlate_1d w X bin wd with
  | Ok (curve, wd') => Ok ([seq xdiv q (Some c) | q <- curve], scale_bin bin c wd')
  | Raise e => Raise e
  end
  /\ MatMulCorrelator_correlate (scale_bin_base bin c (base (self wd))) frames
     = MatMulCorrelator_correlate (base (self wd)) frames.
Proof.
move=> cpos; have c0 : c != 0 := lt0r_neq0 cpos.
split; last by [].
rewrite /correlate_1d /mbind get_plan_scale.
case: (get_plan bin wd) => [[p wd1]|e] //=.
case: (set_prefix _ _) => [d1|e] //=.
case: (set_prefix _ _) => [d2|e] //=.
case: (last_column_reversed _ _) => [num|e] //=.
case: (np_correlate_full _ _) => [full|e] //=.
case: (np_divide _ _) => [quot|e] //=.
rewrite /dict_item dict_get_scale; case: (dict_get _ bin) => [s|] //=.
rewrite eqxx -map_comp; congr (Ok (_, _)).
by apply: eq_map => q /=; rewrite xdiv_scale.
Qed.

(** ** The spectral correlator and the dense reference: the claim *)

Lemma algC_root_prim (N : nat) : (0 < N)%N -> N.-primitive_root (algC_root N).
Proof. by case: N => // n _; rewrite /algC_root; case: C_prim_root_exists. Qed.



Lemma real_frame_ones (C : numClosedFieldType) :
  all (all (all (fun x : C => x \is Num.real))) (frame_ones C).
Proof. by rewrite /= real1. Qed.


(** ** The cached plan: two calls of [correlate] *)

Section CachedPlan.

Variable C : numClosedFieldType.
Variable w : nat -> C.
Hypothesis w_prim : forall N, (0 < N)%N -> N.-primitive_root (w N).

(** [correlate] on a correlator without bins: one row, the curve of the
    bin 0. *)
Lemma correlate_single_bin (frames : seq (seq (seq C))) (X : seq (seq C))
    (curve : seq (option C)) (wd wd' : world C) :
  bins (base (self wd)) = None ->
  get_pixels_in_bin (self wd) frames 0 true true = Ok X ->
  correlate_1d w X 0 wd = Ok (curve, wd') ->
  size curve = nframes (base (self wd')) ->
  correlate w frames wd = Ok ([:: curve], wd').
Proof.
move=> hb hpx h1d hsz.
by rewrite /correlate hb /= /correlate_bin /mbind /mlift hpx /= h1d /=
           /assign_row hsz eqxx.
Qed.

Lemma cconv4 (a0 a1 a2 a3 b0 b1 b2 b3 : C) :
  cconv [:: a0; a1; a2; a3] [:: b0; b1; b2; b3] =
  [:: a0 * b0 + a1 * b3 + a2 * b2 + a3 * b1;
      a0 * b1 + a1 * b0 + a2 * b3 + a3 * b2;
      a0 * b2 + a1 * b1 + a2 * b0 + a3 * b3;
      a0 * b3 + a1 * b2 + a2 * b1 + a3 * b0].
Proof.
by rewrite /cconv /np_sum /=; congr [:: _; _; _; _]; rewrite !addrA addr0.
Qed.

Lemma Re_nat (n : nat) : 'Re (n%:R : C) = n%:R.
Proof. exact/Creal_ReP/realn. Qed.

Lemma curve_entry (n m q : nat) :
  (0 < m)%N -> n = (q * m)%N ->
  xdiv (fdiv ('Re (n%:R : C)) m%:R) (Some 1) = Some q%:R.
Proof.
move=> m0 ->; have m1 : m%:R != 0 :> C by rewrite pnatr_eq0 lt0n_neq0.
by rewrite Re_nat /fdiv (negPf m1) /xdiv /fdiv oner_eq0 divr1 natrM mulfK.
Qed.

Lemma denominators_1x1 :
  lag_denominator [:: [:: 1]; [:: 2 : C]] 1 0 = 5 /\
  lag_denominator [:: [:: 1]; [:: 2 : C]] 1 1 = 2.
Proof.
rewrite /lag_denominator /= !big_ord_recl !big_ord0.
by rewrite /frame_mean !big_ord_recl !big_ord0 /px /=; split; field.
Qed.

Lemma numerators_1x1 :
  lag_numerator [:: [:: 1]; [:: 2 : C]] 1 0 = 5 /\
  lag_numerator [:: [:: 1]; [:: 2 : C]] 1 1 = 2.
Proof.
by rewrite /lag_numerator /= !big_ord_recl !big_ord0 /px /=; split; ring.
Qed.

(** [_correlate_1d] on the two samples 1 and 2 with a plan whose input
    buffer holds [d2] and [d3] behind the first two cells: the products of
    these cells with the samples and with each other are added to the
    numerators. *)
Lemma correlate_1d_1x1 (x0 x1 d2 d3 : C) (rc0 : seq C) (plan : option nat)
    (h : seq (FFTwPlan C)) :
  get_plan 0 (world_1x1 C plan h)
  = Ok (0%N, world_1x1 C (Some 0%N) [:: MkPlan [:: x0; x1; d2; d3] rc0]) ->
  exists reciprocal,
    correlate_1d w [:: [:: 1]; [:: 2]] 0 (world_1x1 C plan h) =
    Ok ([:: xdiv (fdiv ('Re (5 + 2 * d2 * d3)) 5) (Some 1);
            xdiv (fdiv ('Re (2 + 3 * d3 + d2 * d2)) 2) (Some 1)],
        world_1x1 C (Some 0%N)
          [:: MkPlan [:: 2 + 3 * d3 + d2 * d2; 5 + 2 * d2 * d3;
                         2 + 3 * d2 + d3 * d3; 3 * (d2 + d3)] reciprocal]).
Proof.
move=> hgp.
have [rc ->] := @correlate_1d_plan C w w_prim [:: [:: 1]; [:: 2]] 0 _ _ _ 1 1
                  hgp erefl isT isT isT isT erefl.
have [D0 D1] := denominators_1x1.
exists rc; rewrite /= cconv4 /= D0 D1 /world_1x1 /set_heap /=.
congr (Ok ([:: xdiv (fdiv ('Re _) _) _; xdiv (fdiv ('Re _) _) _],
           MkWorld _ [:: MkPlan [:: _; _; _; _] _] _)); ring.
Qed.

(** The first [correlate] of a new correlator on [frames_1x1] returns the
    curve [1, 1] and leaves the inverse transform [2, 5, 2, 0] in the input
    buffer of the plan it caches; the second one, on the same frames, finds
    the cells [2, 0] behind its samples and returns [1, 3]. *)
Lemma first_and_second_correlate :
  exists rc1 rc2,
    correlate w (frames_1x1 C) (world_1x1 C None [::])
    = Ok ([:: [:: Some 1; Some 1]],
          world_1x1 C (Some 0%N) [:: MkPlan [:: 2; 5; 2; 0] rc1]) /\
    correlate w (frames_1x1 C)
      (world_1x1 C (Some 0%N) [:: MkPlan [:: 2; 5; 2; 0] rc1])
    = Ok ([:: [:: Some 1; Some 3]],
          world_1x1 C (Some 0%N) [:: MkPlan [:: 6; 5; 8; 6] rc2]).
Proof.
have g1 : get_plan 0 (world_1x1 C None [::])
  = Ok (0%N, world_1x1 C (Some 0%N) [:: MkPlan [:: 0; 0; 0; 0] [:: 0; 0; 0; 0]])
  by [].
have [rc1 E1] := correlate_1d_1x1 g1.
have g2 : get_plan 0 (world_1x1 C (Some 0%N) [:: MkPlan [:: 2; 5; 2; 0] rc1])
  = Ok (0%N, world_1x1 C (Some 0%N) [:: MkPlan [:: 2; 5; 2; 0] rc1])
  by [].
have [rc2 E2] := correlate_1d_1x1 g2.
exists rc1, rc2; split.
- apply: (@correlate_single_bin _ [:: [:: 1]; [:: 2]]) => //.
  rewrite E1.
  congr (Ok ([:: _; _], world_1x1 _ _ [:: MkPlan [:: _; _; _; _] _])); try ring.
  + have -> : 5 + 2 * 0 * 0 = 5%:R :> C by ring.
    exact: (@curve_entry 5 5 1).
  + have -> : 2 + 3 * 0 + 0 * 0 = 2%:R :> C by ring.
    exact: (@curve_entry 2 2 1).
- apply: (@correlate_single_bin _ [:: [:: 1]; [:: 2]]) => //.
  rewrite E2.
  congr (Ok ([:: _; _], world_1x1 _ _ [:: MkPlan [:: _; _; _; _] _])); try ring.
  + have -> : 5 + 2 * 2 * 0 = 5%:R :> C by ring.
    exact: (@curve_entry 5 5 1).
  + have -> : 2 + 3 * 0 + 2 * 2 = 6%:R :> C by ring.
    exact: (@curve_entry 6 2 3).
Qed.

End CachedPlan.

(** C5, at the failing input: a correlator for two frames of one pixel,
    without mask, with the scale factor 1, built without precomputed plans
    on an allocator that zero-fills; the frames hold 1 and 2.  Two
    [correlate] calls on these frames, with no [flush_plans] between them,
    return the curve [1, 1] and then the curve [1, 3]: the second call
    reuses the cached plan, whose input buffer still holds the inverse
    transform of the first call behind the samples.  The two results do not
    agree within the relative tolerance [1e-4]. *)
Theorem correlate_twice_differs :
  exists wd0 wd1 wd2,
    [/\ DenseFFTwCorrelator_init (@Ok (BaseCorrelator algC)) all_facilities
          (fun _ _ => 0) (base_1x1 1) false = Ok wd0,
        correlate algC_root (frames_1x1 algC) wd0
        = Ok ([:: [:: Some 1; Some 1]], wd1),
        correlate algC_root (frames_1x1 algC) wd1
        = Ok ([:: [:: Some 1; Some 3]], wd2)
      & within_rtol (Some (3 : algC)) (Some 1) = false].
Proof.
have [rc1 [rc2 [E1 E2]]] := first_and_second_correlate algC_root_prim.
exists (world_1x1 algC None [::]); eexists; eexists; split.
- by [].
- exact: E1.
- exact: E2.
- rewrite /within_rtol; have -> : 3 - 1 = 2%:R :> algC by ring.
  have lt1 : (10 ^ 4)%:R^-1 < 1 :> algC by rewrite invf_lt1 ?ltr0n // ltr1n.
  rewrite normr1 mulr1 normr_nat; apply/negP => le2.
  by have := Order.POrderTheory.le_lt_trans le2 lt1; rewrite ltrn1.
Qed.

(** C3, at the failing input of C5: in the second [correlate] the inverse
    transform left in the buffer is [6, 5, 8, 6], and the numerator that
    [_correlate_1d] extracts from it, [res[:T*P].reshape(T, P)[:, -1][::-1]],
    is [5, 6]; the sums of the products of the frames at the lags 0 and 1
    are 5 and 2. *)
Theorem stale_buffer_numerator :
  exists wd0 wd1 wd2 rows1 rows2,
    [/\ DenseFFTwCorrelator_init (@Ok (BaseCorrelator algC)) all_facilities
          (fun _ _ => 0) (base_1x1 1) false = Ok wd0,
        correlate algC_root (frames_1x1 algC) wd0 = Ok (rows1, wd1),
        correlate algC_root (frames_1x1 algC) wd1 = Ok (rows2, wd2),
        last_column_reversed 2
          (take 2 [seq 'Re z
                  | z <- data_direct (nth (MkPlan [::] [::]) (heap wd2) 0)])
        = Ok [:: 5; 6]
      & [seq lag_numerator [seq flatten f | f <- frames_1x1 algC] 1 k
        | k <- iota 0 2] = [:: 5; 2]].
Proof.
have [rc1 [rc2 [E1 E2]]] := first_and_second_correlate algC_root_prim.
exists (world_1x1 algC None [::]).
eexists; eexists; eexists; eexists; split.
- by [].
- exact: E1.
- exact: E2.
- by rewrite /= /last_column_reversed /= (Re_nat algC 6) (Re_nat algC 5).
- by have [N0 N1] := numerators_1x1 algC; rewrite /= N0 N1.
Qed.

(** ** Instances of the spectral theorems *)


Lemma get_pixels_in_bin_zero_witness :
  [/\ get_pixels_in_bin (self (world_1x1 algC None [::])) (frames_1x1 algC) 0
        true true
      = Ok [:: [:: 1]; [:: 2]],
      all (fun row => size row == (1 * 1)%N) [:: [:: 1]; [:: 2 : algC]]
    & bins (base (self (world_1x1 algC None [::]))) = None ->
      correlate algC_root (frames_1x1 algC) (world_1x1 algC None [::]) =
      mmap (fun bin => mbind (correlate_1d algC_root [:: [:: 1]; [:: 2]] bin)
              (fun curve wd' =>
                 mlift (assign_row (nframes (base (self wd'))) curve) wd'))
           [:: 0%N] (world_1x1 algC None [::])].
Proof.
apply: (@get_pixels_in_bin_zero algC algC_root (world_1x1 algC None [::])
          (frames_1x1 algC) true true).
- reflexivity.
- reflexivity.
- reflexivity.
Defined.

Lemma scale_factor_divides_curve_witness :
  correlate_1d algC_root [:: [:: 1]; [:: 2]] 0
    (scale_bin 0 2 (world_1x1 algC None [::])) =
  match correlate_1d algC_root [:: [:: 1]; [:: 2]] 0
          (world_1x1 algC None [::]) with
  | Ok (curve, wd') =>
      Ok ([seq xdiv q (Some 2) | q <- curve], scale_bin 0 2 wd')
  | Raise e => Raise e
  end
  /\ MatMulCorrelator_correlate
       (scale_bin_base 0 2 (base (self (world_1x1 algC None [::]))))
       (frames_1x1 algC)
     = MatMulCorrelator_correlate (base (self (world_1x1 algC None [::])))
                                  (frames_1x1 algC).
Proof.
apply: (@scale_factor_divides_curve algC algC_root (world_1x1 algC None [::])
          [:: [:: 1]; [:: 2]] (frames_1x1 algC) 0 2).
by rewrite ltr0n.
Defined.

(** * Further properties of the dense correlators *)

Section DenseFurther.

Variable F : numFieldType.
Implicit Types (mask : seq (seq nat)) (frames : seq (seq (seq F))).

Lemma xsum_none (s : seq (option F)) :
  s != [::] -> all (fun x => x == None) s ->
  np_sum (Some 0) (@xadd F) s = None.
Proof. by case: s => [|[x|] s]. Qed.

Lemma py_dense_no_pixel mask frames :
  pixel_count mask = 0%N ->
  py_dense_correlator frames mask = Ok (nseq (size frames) None).
Proof.
move=> P0; have ind0 : np_where mask = [::].
  by apply: size0nil; rewrite (size_np_where F).
rewrite /py_dense_correlator ind0 /=.
have -> : all (fun=> true) frames by apply/allP.
rewrite /= size_map; congr Ok.
apply: (@eq_from_nth _ None); first by rewrite size_map size_iota size_nseq.
move=> k; rewrite size_map size_iota => kT.
rewrite (nth_map 0%N) ?size_iota // nth_iota // add0n nth_nseq kT.
set ms := np_mean_axis1 _.
have szms : size ms = size frames by rewrite !size_map.
have msN i : nth None ms i = None.
  case: (ltnP i (size ms)) => [lt|le]; last by rewrite nth_default.
  rewrite (nth_map [::]) ?size_map -?szms //.
  by rewrite (nth_map [::]) -?szms //= /fdiv eqxx.
rewrite xsum_none //.
- rewrite /np_diag size_np_dot /np_T size_map size_iota.
  by rewrite -size_eq0 size_map size_iota subn_eq0 -ltnNge.
- rewrite /np_diag size_np_dot /np_T size_map size_iota.
  apply/allP => x /mapP[i]; rewrite mem_iota add0n /= => ik ->.
  have ikT : (i + k < size frames)%N by rewrite addnC -ltn_subRL.
  have iT : (i < size frames)%N := leq_ltn_trans (leq_addr k i) ikT.
  rewrite -/(np_T None (size frames) [:: ms]) -szms denom_entry ?szms //.
  by rewrite !msN.
Qed.

(** An empty mask.  When no entry of the mask is positive,
    [py_dense_correlator] raises nothing, for frames of any shape: every
    mean is the mean of no pixel, and the curve has one non-finite entry
    per frame. *)
Theorem py_dense_empty_mask mask frames :
  pixel_count mask = 0%N ->
  py_dense_correlator frames mask = Ok (nseq (size frames) None).
Proof. exact: py_dense_no_pixel. Qed.

(** For a mask and frames of one shape the curve has one entry per
    frame. *)
Lemma py_dense_size (sh : nat * nat) mask frames :
  has_shape sh mask -> all (has_shape sh) frames ->
  exists2 curve, py_dense_correlator frames mask = Ok curve &
                 size curve = size frames.
Proof.
move=> hm hf; case: (posnP (pixel_count mask)) => [P0|Ppos].
  by rewrite (py_dense_no_pixel _ P0); eexists; [reflexivity | rewrite size_nseq].
rewrite (py_dense_correlatorE hm hf Ppos).
by eexists; [reflexivity | rewrite size_map size_iota].
Qed.

(** Frames that are uniform over the masked pixels.  When every masked
    pixel of frame [t] has the same value [c t], the curve is 1 at every
    lag at which the sum of the products [c t * c (t + k)] is not zero, for
    any number [P >= 1] of masked pixels; at the other lags it is the
    non-finite result of [0 / 0]. *)
Theorem py_dense_uniform_frames (sh : nat * nat) mask frames (c : nat -> F) :
  has_shape sh mask -> all (has_shape sh) frames ->
  (0 < pixel_count mask)%N ->
  (forall t, (t < size frames)%N ->
     masked_pixels mask (nth [::] frames t) = nseq (pixel_count mask) (c t)) ->
  exists2 curve, py_dense_correlator frames mask = Ok curve &
    size curve = size frames /\
    forall k, (k < size frames)%N ->
      nth None curve k =
      if \sum_(i < size frames - k) c i * c (i + k)%N == 0 then None
      else Some 1.
Proof.
move=> hm hf Ppos hc.
set X := [seq masked_pixels mask f | f <- frames]; set P := pixel_count mask.
exists [seq xdiv (fdiv (lag_numerator X P k) (lag_denominator X P k))
                 (Some P%:R) | k <- iota 0 (size frames)].
  exact: py_dense_correlatorE hm hf Ppos.
split=> [|k kT]; first by rewrite size_map size_iota.
rewrite (nth_map 0%N) ?size_iota // nth_iota // add0n xdiv_fdiv_count //.
have P0 : P%:R != 0 :> F by rewrite pnatr_eq0 lt0n_neq0.
have pxE t (p : 'I_P) : (t < size frames)%N -> px X t p = c t.
  by move=> tT; rewrite /px (nth_map [::]) // hc // nth_nseq ltn_ord.
have meanE t : (t < size frames)%N -> frame_mean X P t = c t.
  move=> tT; have E (p : 'I_P) : true -> px X t p = c t by rewrite pxE.
  by rewrite /frame_mean (eq_bigr _ E) sumr_const card_ord -mulr_natl mulrAC divff // mul1r.
have szX : size X = size frames by rewrite size_map.
have lagT (i : 'I_(size frames - k)) :
    (i < size frames)%N /\ (i + k < size frames)%N.
  have := ltn_ord i; rewrite ltn_subRL addnC => ik; split=> //.
  exact: leq_ltn_trans (leq_addr k i) ik.
have -> : lag_denominator X P k = \sum_(i < size frames - k) c i * c (i + k)%N.
  rewrite /lag_denominator szX; apply: eq_bigr => i _.
  by have [i1 i2] := lagT i; rewrite !meanE.
have -> : lag_numerator X P k
          = P%:R * \sum_(i < size frames - k) c i * c (i + k)%N.
  rewrite /lag_numerator szX mulr_sumr; apply: eq_bigr => i _.
  have [i1 i2] := lagT i.
  have E (p : 'I_P) : true -> px X i p * px X (i + k) p = c i * c (i + k)%N.
    by rewrite !pxE.
  by rewrite (eq_bigr _ E) sumr_const card_ord -mulr_natl.
case: ifP => // /negbT nz.
by rewrite mulfK // divff.
Qed.

(** The frames with every pixel multiplied by [a]. *)
Lemma masked_pixels_scale (a : F) mask (f : seq (seq F)) :
  masked_pixels mask [seq [seq a * x | x <- row] | row <- f]
  = [seq a * x | x <- masked_pixels mask f].
Proof.
rewrite /masked_pixels map_mask; congr (seq.mask _ _).
by elim: f => [|r f IH] //=; rewrite map_cat IH.
Qed.

(** The curve does not depend on the unit of intensity: multiplying every
    pixel of every frame by a constant [a] that is not zero changes
    nothing in the result of [py_dense_correlator]. *)
Theorem py_dense_intensity_unit (sh : nat * nat) mask frames (a : F) :
  has_shape sh mask -> all (has_shape sh) frames ->
  (0 < pixel_count mask)%N -> a != 0 ->
  py_dense_correlator
    [seq [seq [seq a * x | x <- row] | row <- f] | f <- frames] mask
  = py_dense_correlator frames mask.
Proof.
move=> hm hf Ppos a0.
have hf' : all (has_shape sh)
             [seq [seq [seq a * x | x <- row] | row <- f] | f <- frames].
  apply/allP => g /mapP[f /(allP hf) /andP[s1 s2] ->].
  rewrite /has_shape size_map s1 /=; apply/allP => r /mapP[r0 r0in ->].
  by rewrite size_map (allP s2).
rewrite (py_dense_correlatorE hm hf' Ppos) (py_dense_correlatorE hm hf Ppos).
rewrite size_map -map_comp; congr Ok; apply: eq_map => k.
set X' := [seq _ | f <- frames]; set X := [seq _ | f <- frames].
set P := pixel_count mask.
have pxE t p : px X' t p = a * px X t p.
  rewrite /px /X' /X; case: (ltnP t (size frames)) => [tT|le].
    rewrite !(nth_map [::]) //= masked_pixels_scale.
    set row := masked_pixels _ _.
    case: (ltnP p (size row)) => [lt|ge]; first by rewrite (nth_map 0).
    by rewrite !nth_default ?size_map // mulr0.
  by rewrite !(@nth_default _ [::]) ?size_map // !nth_nil mulr0.
have szX : size X' = size X by rewrite !size_map.
have numE : lag_numerator X' P k = a * a * lag_numerator X P k.
  rewrite /lag_numerator szX mulr_sumr; apply: eq_bigr => i _.
  by rewrite mulr_sumr; apply: eq_bigr => p _; rewrite !pxE; ring.
have meanE t : frame_mean X' P t = a * frame_mean X P t.
  rewrite /frame_mean mulrA; congr (_ / _).
  by rewrite mulr_sumr; apply: eq_bigr => p _; rewrite pxE.
have denE : lag_denominator X' P k = a * a * lag_denominator X P k.
  rewrite /lag_denominator szX mulr_sumr; apply: eq_bigr => i _.
  by rewrite !meanE; ring.
rewrite numE denE /fdiv mulf_eq0 mulf_eq0 (negPf a0) /=.
case: ifP => // _; congr (xdiv (Some _) _).
by rewrite invfM mulrACA divff ?mul1r // mulf_neq0.
Qed.

(** The pixels that the mask leaves out are not used: two stacks of frames
    of the shape of the mask that agree on the masked pixels have the same
    curve. *)
Theorem py_dense_unmasked_unused (sh : nat * nat) mask frames frames' :
  has_shape sh mask -> all (has_shape sh) frames ->
  all (has_shape sh) frames' -> (0 < pixel_count mask)%N ->
  [seq masked_pixels mask f | f <- frames]
  = [seq masked_pixels mask f | f <- frames'] ->
  py_dense_correlator frames mask = py_dense_correlator frames' mask.
Proof.
move=> hm hf hf' Ppos E.
rewrite (py_dense_correlatorE hm hf Ppos) (py_dense_correlatorE hm hf' Ppos) E.
by rewrite -(size_map (masked_pixels mask) frames) E size_map.
Qed.

(** ** [MatMulCorrelator.correlate] *)

Lemma assign_row_size (A : Type) (n : nat) (curve row : seq A) :
  assign_row n curve = Ok row -> size row = n.
Proof.
rewrite /assign_row; case: eqP => [<- [<-] //|_].
by case: curve => [|x [|y s]] // [<-]; rewrite size_nseq.
Qed.

Lemma rmap_all (A B : Type) (f : A -> result B) (Q : B -> bool)
    (s : seq A) (bs : seq B) :
  (forall a b, f a = Ok b -> Q b) -> rmap f s = Ok bs ->
  size bs = size s /\ all Q bs.
Proof.
move=> hQ; elim: s bs => [|a s IH] bs /=; first by case=> <-.
case E: (f a) => [b|] //=; case E': (rmap f s) => [bs'|] //= [<-] /=.
by have [-> ->] := IH _ E'; rewrite (hQ _ _ E).
Qed.

(** The shape of the result.  Whenever [MatMulCorrelator.correlate]
    returns, its result has [n_bins] rows of [nframes] entries. *)
Theorem MatMulCorrelator_result_shape (self : BaseCorrelator F) frames
    (rows : seq (seq (option F))) :
  MatMulCorrelator_correlate self frames = Ok rows ->
  size rows = n_bins self /\
  all (fun row => size row == nframes self) rows.
Proof.
rewrite /MatMulCorrelator_correlate; case: (bins self) => [bs|] //.
case: ltnP => // le; case E: (rmap _ bs) => [rows0|] //= [<-].
have [sz hall] :
    size rows0 = size bs /\ all (fun row => size row == nframes self) rows0.
  apply: rmap_all E => bin row; case: (qmask self) => [qm|] //.
  case: (py_dense_correlator _ _) => [curve|] //=.
  by move/assign_row_size => ->.
rewrite size_cat size_nseq sz subnKC // all_cat hall /=; split=> //.
by apply/allP => row; rewrite mem_nseq => /andP[_ /eqP ->]; rewrite size_nseq.
Qed.

(** The number of frames is not checked by [MatMulCorrelator.correlate]
    itself.  For a correlator with at least one bin and frames of the shape
    of its mask, a stack whose length is neither [nframes] nor 1 makes the
    assignment of the first curve to its row raise [ValueError]. *)
Theorem MatMulCorrelator_frame_count (self : BaseCorrelator F)
    (b : nat) (bs : seq nat) (qm : seq (seq nat)) (sh : nat * nat) frames :
  bins self = Some (b :: bs) -> (size bs < n_bins self)%N ->
  qmask self = Some qm -> has_shape sh qm -> all (has_shape sh) frames ->
  size frames != nframes self -> size frames != 1%N ->
  MatMulCorrelator_correlate self frames = Raise ValueError.
Proof.
move=> hb hn hq hm hf nT n1.
rewrite /MatMulCorrelator_correlate hb /= ltnNge hn /= hq.
have [curve -> sz] := py_dense_size (has_shape_qmask_eq b hm) hf.
rewrite /= /assign_row sz (negPf nT).
by case: curve sz n1 => [|x [|y s]] //= <-.
Qed.

(** A single frame is broadcast.  For a correlator built for any number of
    frames, a stack of one frame of the shape of the mask raises nothing:
    the one-entry curve of each bin fills its whole row. *)
Theorem MatMulCorrelator_single_frame (self : BaseCorrelator F)
    (bs : seq nat) (qm : seq (seq nat)) (sh : nat * nat) frames :
  bins self = Some bs -> n_bins self = size bs ->
  qmask self = Some qm -> has_shape sh qm -> all (has_shape sh) frames ->
  size frames = 1%N ->
  exists2 xs : seq (option F),
    size xs = size bs &
    MatMulCorrelator_correlate self frames
    = Ok [seq nseq (nframes self) x | x <- xs].
Proof.
move=> hb hn hq hm hf T1.
rewrite /MatMulCorrelator_correlate hb hn ltnn hq.
have row bin : exists x,
    (curve <-- py_dense_correlator frames (qmask_eq qm bin) ;;
     assign_row (nframes self) curve) = Ok (nseq (nframes self) x).
  have [curve -> sz] := py_dense_size (has_shape_qmask_eq bin hm) hf.
  rewrite T1 in sz; case: curve sz => [|x [|y s]] // _; exists x.
  by rewrite /= /assign_row /=; case: eqP => // <-.
have [xs sz ->] : exists2 xs : seq (option F), size xs = size bs &
    rmap (fun bin => curve <-- py_dense_correlator frames (qmask_eq qm bin) ;;
                     assign_row (nframes self) curve) bs
    = Ok [seq nseq (nframes self) x | x <- xs].
  elim: (bs) => [|bin bs' [xs sz E]] /=; first by exists [::].
  by have [x ->] := row bin; exists (x :: xs); rewrite /= ?sz // E.
by exists xs; rewrite //= subnn cats0.
Qed.

End DenseFurther.

Section DenseLagZero.

Variable F : numFieldType.
Implicit Types (mask : seq (seq nat)) (frames : seq (seq (seq F))).



End DenseLagZero.

(** * Further properties of the CUDA diagonal reduction *)

Section CublasFurther.

Variable F : numFieldType.
Implicit Types (d matrix : seq F) (sched : seq (nat * nat)).

Lemma size_extract_upper_diags matrix (N : nat) (xy : nat * nat) d :
  size d = (N * N)%N -> size (extract_upper_diags matrix N xy d) = (N * N)%N.
Proof.
move=> sz; rewrite /extract_upper_diags.
case: (leqP N xy.1) => [//|xN]; case: (leqP N xy.2) => [//|yN].
case: (ltnP xy.1 xy.2) => [//|yx] /=.
rewrite size_set_nth sz; apply/maxn_idPr.
have Npos : (0 < N)%N by apply: leq_ltn_trans xN.
have le : (xy.1 - xy.2 <= N.-1)%N.
  by rewrite -ltnS prednK // (leq_ltn_trans (leq_subr _ _)).
have e : (N.-1 * N + N = N * N)%N by rewrite addnC -mulSn prednK.
by rewrite -e -addnS; apply: leq_add => //; rewrite leq_mul2r le orbT.
Qed.

Lemma size_launch matrix (N : nat) sched d :
  size d = (N * N)%N ->
  size (launch sched (extract_upper_diags matrix N) d) = (N * N)%N.
Proof.
rewrite /launch; elim: sched d => [|xy sched IH] d //= sz.
by rewrite IH // size_extract_upper_diags.
Qed.


(** Nothing is left over from one reduction to the next.  On a correlator
    whose staging buffer has [N * N] cells, the result of [sum_diagonals]
    and the state it leaves are the same after any earlier [sum_diagonals],
    for any matrices and any order of the threads: the buffer is filled
    with zeros at every call. *)
Theorem sum_diagonals_no_leftover sched1 sched2
    (self : CublasMatMulCorrelator F) (d_arr1 d_arr2 : seq F) :
  size (d_diags self)
    = (nframes (cublas_base self) * nframes (cublas_base self))%N ->
  sum_diagonals sched2 (sum_diagonals sched1 self d_arr1).2 d_arr2
  = sum_diagonals sched2 self d_arr2.
Proof.
move=> sz; rewrite /sum_diagonals /=.
set N := nframes (cublas_base self).
have -> : [seq 0 | _ <- launch sched1 (extract_upper_diags d_arr1 N)
                          [seq 0 | _ <- d_diags self]]
          = [seq (0 : F) | _ <- d_diags self].
  apply: (@eq_from_nth _ 0); first by rewrite !size_map size_launch ?size_map.
  move=> i; rewrite size_map size_launch ?size_map // => iN.
  by rewrite !(nth_map 0) ?size_launch ?size_map // sz.
by [].
Qed.

End CublasFurther.

Section CublasConstructed.

Variable F : numClosedFieldType.
Variable Args : Type.
Variable set_parameters : Args -> result (BaseCorrelator F).
Variable updiv : nat -> nat -> nat.


End CublasConstructed.

(** * Further properties of the spectral correlator *)

Section SpectralFurther.

Variable C : numClosedFieldType.
Variable w : nat -> C.

Implicit Types (wd : world C) (X : seq (seq C)) (frames : seq (seq (seq C))).

Lemma get_plan_frame (bin p : nat) wd wd' :
  get_plan bin wd = Ok (p, wd') ->
  same_parameters wd wd'.
Proof.
rewrite /get_plan; case: (dict_item _ _) => [N|] //=.
have fresh :
    (if save_fft_plans (base (self wd))
     then Ok (size (heap wd),
              set_ffts (set_heap wd (rcons (heap wd)
                 (MkPlan (mkseq (junk wd (size (heap wd)).*2) N)
                         (mkseq (junk wd (size (heap wd)).*2.+1) N))))
                (dict_set (ffts (self wd)) bin (Some (size (heap wd)))))
     else Ok (size (heap wd),
              set_heap wd (rcons (heap wd)
                 (MkPlan (mkseq (junk wd (size (heap wd)).*2) N)
                         (mkseq (junk wd (size (heap wd)).*2.+1) N)))))
    = Ok (p, wd') ->
    same_parameters wd wd'.
  by case: ifP => _ [_ <-]; split; rewrite //= size_rcons.
case: (dict_get _ _) => [[q|]|] //.
by case=> _ <-; split.
Qed.

Lemma correlate_1d_frame X (bin : nat) wd wd' (curve : seq (option C)) :
  correlate_1d w X bin wd = Ok (curve, wd') ->
  same_parameters wd wd'.
Proof.
rewrite /correlate_1d /mbind.
case E: (get_plan bin wd) => [[p wd1]|] //.
have [h1 h2 h3 h4 h5] := get_plan_frame E.
case: (set_prefix _ _) => [d1|] //=.
case: (set_prefix _ _) => [d2|] //=.
case: (last_column_reversed _ _) => [num|] //=.
case: (np_correlate_full _ _) => [full|] //=.
case: (np_divide _ _) => [quot|] //=.
case: (dict_item _ _) => [s|] //= [_ <-]; split=> //=.
by rewrite size_set_nth (leq_trans h5) // leq_maxr.
Qed.

Lemma correlate_bin_frame frames (bin : nat) wd wd' (row : seq (option C)) :
  correlate_bin w frames bin wd = Ok (row, wd') ->
  same_parameters wd wd' /\ size row = nframes (base (self wd)).
Proof.
rewrite /correlate_bin /mbind /mlift.
case: (get_pixels_in_bin _ _ _ _ _) => [X|] //.
case E: (correlate_1d w X bin wd) => [[curve wd1]|] //.
have [h1 h2 h3 h4 h5] := correlate_1d_frame E.
case E': (assign_row _ _) => [r|] //= [<- <-]; split=> //.
by rewrite (assign_row_size E') h1.
Qed.

Lemma correlate_loop_frame frames (bs : seq nat) wd wd'
    (rows : seq (seq (option C))) :
  mmap (correlate_bin w frames) bs wd = Ok (rows, wd') ->
  same_parameters wd wd' /\
  (size rows = size bs /\
   all (fun row => size row == nframes (base (self wd))) rows).
Proof.
elim: bs wd wd' rows => [|bin bs IH] wd wd' rows /=; first by case=> <- <-; split.
rewrite {1}/mbind; case E: (correlate_bin _ _ _ _) => [[row wd1]|] //.
have [[h1 h2 h3 h4 h5] h6] := correlate_bin_frame E.
rewrite {1}/mbind; case E': (mmap _ _ _) => [[rows1 wd2]|] //= [<- <-].
have [[g1 g2 g3 g4 g5] [g6 g7]] := IH _ _ _ E'.
split; first by split; rewrite ?g1 ?g2 ?g3 ?g4 //; exact: leq_trans h5 g5.
by rewrite /= g6 h6 eqxx /=; split=> //; rewrite -h1.
Qed.

(** The parameters are read-only.  Whenever [correlate] returns, the
    attributes of the correlator (frame count, shape, mask, bins, scale
    factors, options) and the buffer lengths are what they were before the
    call; only the cache of plans and the plans themselves change, and no
    plan is dropped. *)
Theorem correlate_keeps_parameters frames wd wd'
    (rows : seq (seq (option C))) :
  correlate w frames wd = Ok (rows, wd') -> same_parameters wd wd'.
Proof. by rewrite /correlate => /correlate_loop_frame[]. Qed.

(** The shape of the result.  Whenever [correlate] returns, its result has
    one row per bin (a single row for a correlator without bins) and
    [nframes] entries in every row. *)
Theorem correlate_result_shape frames wd wd' (rows : seq (seq (option C))) :
  correlate w frames wd = Ok (rows, wd') ->
  size rows = size (if bins (base (self wd)) is Some bs then bs else [:: 0%N])
  /\ all (fun row => size row == nframes (base (self wd))) rows.
Proof. by rewrite /correlate => /correlate_loop_frame[_]. Qed.

(** ** The cache of plans *)

(** A plan is built once.  With the option [save_fft_plans], which the
    constructor always sets, the plan that [get_plan] returns for a bin is
    the one every later [get_plan] for the bin returns, without allocating
    and without any change of the state. *)
Theorem get_plan_cached_again (bin p : nat) wd wd1 :
  save_fft_plans (base (self wd)) ->
  get_plan bin wd = Ok (p, wd1) -> get_plan bin wd1 = Ok (p, wd1).
Proof.
move=> hsave; rewrite /get_plan.
case EN: (dict_item _ _) => [N|] //=.
case Ef: (dict_get (ffts (self wd)) bin) => [[q|]|] /=.
- by case=> <- <-; rewrite EN /= Ef.
- by rewrite hsave => -[<- <-] /=; rewrite EN /= dict_get_set eqxx.
- by rewrite hsave => -[<- <-] /=; rewrite EN /= dict_get_set eqxx.
Qed.

Lemma dict_get_flush (d : dict nat (option nat)) (ks : seq nat) (k : nat) :
  dict_get (foldl (fun d binval => dict_set d binval None) d ks) k
  = if k \in ks then Some None else dict_get d k.
Proof.
elim: ks d => [|k0 ks IH] d //=.
rewrite IH in_cons dict_get_set; case: (k \in ks); first by rewrite orbT.
by rewrite orbF eq_sym.
Qed.

Lemma dict_get_keys (V : Type) (d : dict nat V) (k : nat) :
  (k \in dict_keys d) = (dict_get d k : bool).
Proof.
elim: d => [|[k0 v0] d IH] //=.
by rewrite in_cons IH eq_sym; case: (k0 == k).
Qed.

Lemma dict_keys_set (V : Type) (d : dict nat V) (k : nat) (v : V) :
  k \in dict_keys d -> dict_keys (dict_set d k v) = dict_keys d.
Proof.
elim: d => [|[k0 v0] d IH] //=; rewrite in_cons.
case: (k0 =P k) => [-> //|/eqP ne] /=.
by rewrite eq_sym (negPf ne) /= => /IH ->.
Qed.

Lemma dict_keys_flush (d : dict nat (option nat)) (ks : seq nat) :
  {subset ks <= dict_keys d} ->
  dict_keys (foldl (fun d binval => dict_set d binval None) d ks)
  = dict_keys d.
Proof.
elim: ks d => [|k0 ks IH] d //= sub.
have k0in : k0 \in dict_keys d by apply: sub; rewrite mem_head.
rewrite IH dict_keys_set // => k kin.
by apply: sub; rewrite in_cons kin orbT.
Qed.

Lemma flush_plans_state wd :
  exists wd',
    [/\ flush_plans None wd = Ok (tt, wd'),
        same_parameters wd wd' /\ heap wd' = heap wd,
        dict_keys (ffts (self wd')) = dict_keys (ffts (self wd)),
        forall bin, bin \in dict_keys (ffts (self wd)) ->
                    dict_get (ffts (self wd')) bin = Some None
      & forall bin p, dict_get (ffts (self wd')) bin != Some (Some p)].
Proof.
eexists; split; first by rewrite /flush_plans.
- by split.
- by rewrite /= dict_keys_flush.
- by move=> bin inb; rewrite /= dict_get_flush inb.
- move=> bin p; rewrite /= dict_get_flush; case: ifP => // /negbT.
  by rewrite dict_get_keys; case: (dict_get _ bin).
Qed.

(** [flush_plans()] empties the cache and nothing else.  It never raises;
    afterwards the cache has the keys it had, every one of them with the
    value [None], so that no bin has a plan, and the attributes, the buffer
    lengths and the heap are untouched. *)
Theorem flush_plans_all wd :
  exists wd',
    [/\ flush_plans None wd = Ok (tt, wd'),
        same_parameters wd wd' /\ heap wd' = heap wd,
        dict_keys (ffts (self wd')) = dict_keys (ffts (self wd)),
        forall bin, bin \in dict_keys (ffts (self wd)) ->
                    dict_get (ffts (self wd')) bin = Some None
      & forall bin p, dict_get (ffts (self wd')) bin != Some (Some p)].
Proof. exact: flush_plans_state. Qed.

(** [flush_plans(bin_val)] drops the plan of one bin: the entry of
    [bin_val] becomes [None] (the key is added when the cache does not have
    it) and the entry of every other bin stays. *)
Theorem flush_plans_one (b : nat) wd :
  exists wd',
    [/\ flush_plans (Some b) wd = Ok (tt, wd'),
        same_parameters wd wd' /\ heap wd' = heap wd
      & forall bin, dict_get (ffts (self wd')) bin
                    = if bin == b then Some None
                      else dict_get (ffts (self wd)) bin].
Proof.
eexists; split; first by rewrite /flush_plans.
- by split.
- by move=> bin; rewrite /= dict_get_set eq_sym.
Qed.

(** After a flush the next plan is a new one.  For a bin with a buffer
    length, [get_plan] after [flush_plans()] does not return any plan built
    before: it allocates two buffers of the length of the bin from
    [pyfftw.empty_aligned] and returns their plan. *)
Theorem get_plan_after_flush (bin N : nat) wd :
  dict_get (fft_sizes (self wd)) bin = Some N ->
  exists wd1 wd2,
    [/\ flush_plans None wd = Ok (tt, wd1),
        get_plan bin wd1 = Ok (size (heap wd), wd2)
      & nth (MkPlan [::] [::]) (heap wd2) (size (heap wd))
        = MkPlan (mkseq (junk wd (size (heap wd)).*2) N)
                 (mkseq (junk wd (size (heap wd)).*2.+1) N)].
Proof.
move=> hN.
have [wd1 [E1 [[h1 h2 h3 h4 _] hh] _ _ hnone]] := flush_plans_state wd.
have hN1 : dict_get (fft_sizes (self wd1)) bin = Some N by rewrite h3.
exists wd1; rewrite (get_plan_fresh hN1 (hnone bin)) hh h4 /=.
by case: ifP => _; eexists; split=> //=; rewrite nth_rcons ltnn eqxx.
Qed.

End SpectralFurther.

Section FlushAndCorrelate.

Variable C : numClosedFieldType.
Variable w : nat -> C.
Hypothesis w_prim : forall N, (0 < N)%N -> N.-primitive_root (w N).

Variable Args : Type.
Variable set_parameters : Args -> result (BaseCorrelator C).

Variables (b0 : BaseCorrelator C) (bs : seq nat) (qm : seq (seq nat)).
Variable frames : seq (seq (seq C)).
Variable sc : nat -> C.

Hypothesis hbins : bins b0 = Some bs.
Hypothesis hqm : qmask b0 = Some qm.
Hypothesis hshape : has_shape (shape b0) qm.
Hypothesis hT : size frames = nframes b0.
Hypothesis Tpos : (0 < nframes b0)%N.
Hypothesis hframes : all (has_shape (shape b0)) frames.
Hypothesis hreal : all (all (all (fun x => x \is Num.real))) frames.
Hypothesis hpos : 0%N \notin bs.
Hypothesis huniq : uniq bs.
Hypothesis hP : {in bs, forall bin, (0 < bin_count qm bin)%N}.
Hypothesis hscale :
  {in bs, forall bin, dict_get (scale_factors b0) bin = Some (sc bin)}.

Lemma flush_then_correlate_rows (env : facilities) (args : Args) :
  pyfftw env -> set_parameters args = Ok b0 ->
  exists wd0 wd1 wd2 wd3,
    [/\ DenseFFTwCorrelator_init set_parameters env (fun _ _ => 0) args false
        = Ok wd0,
        correlate w frames wd0 =
        Ok ([seq reference_curve (bin_pixels qm bin frames) (bin_count qm bin)
                                 (sc bin) | bin <- bs], wd1),
        flush_plans None wd1 = Ok (tt, wd2)
      & correlate w frames wd2 =
        Ok ([seq reference_curve (bin_pixels qm bin frames) (bin_count qm bin)
                                 (sc bin) | bin <- bs], wd3)].
Proof.
move=> hfftw hargs; rewrite /DenseFFTwCorrelator_init hfftw hargs /=.
set B := configure_extra_options b0.
have [wd0 E0 inv] :=
  init_fft_plans_default (B := B) hqm (jnk := fun _ _ => 0) hbins hpos
                         (fun _ _ => erefl).
have [hb hfs hff hj] := inv.
have [wd1 E1] :=
  spectral_rows w_prim (B := B) hbins hqm hshape hT Tpos hframes hreal hpos hP
                hscale huniq (fun x h => h) inv.
have [[h1 h2 h3 h4 _] _] := correlate_loop_frame E1.
have [wd2 [E2 [[g1 g2 g3 g4 _] _] _ _ hnone]] := flush_plans_state wd1.
have inv2 : plans_unused B qm bs wd2.
  split.
  - by rewrite g1 h1.
  - by rewrite g3 h3.
  - by move=> bin _ p; apply: hnone.
  - by rewrite g4 h4.
have [wd3 E3] :=
  spectral_rows w_prim (B := B) hbins hqm hshape hT Tpos hframes hreal hpos hP
                hscale huniq (fun x h => h) inv2.
exists wd0, wd1, wd2, wd3; rewrite E0 /=; split=> //.
- by rewrite /correlate hb /= hbins.
- by rewrite /correlate g1 h1 hb /= hbins.
Qed.

End FlushAndCorrelate.

(** A flush between two calls.  For a correlator built without precomputed
    plans on an allocator that zero-fills, with distinct, positive and
    non-empty bins and real frames: [correlate], then [flush_plans()], then
    [correlate] on the same frames returns twice the same curves, those of
    the reference divided by the scale factors. *)
Theorem flush_then_correlate (C : numClosedFieldType) (w : nat -> C)
    (Args : Type) (set_parameters : Args -> result (BaseCorrelator C))
    (env : facilities) (args : Args) (b0 : BaseCorrelator C)
    (bs : seq nat) (qm : seq (seq nat)) (frames : seq (seq (seq C)))
    (sc : nat -> C) :
  (forall N, (0 < N)%N -> N.-primitive_root (w N)) ->
  pyfftw env -> set_parameters args = Ok b0 ->
  bins b0 = Some bs -> qmask b0 = Some qm -> has_shape (shape b0) qm ->
  uniq bs -> 0%N \notin bs ->
  {in bs, forall bin, (0 < bin_count qm bin)%N} ->
  {in bs, forall bin, dict_get (scale_factors b0) bin = Some (sc bin)} ->
  size frames = nframes b0 -> (0 < nframes b0)%N ->
  all (has_shape (shape b0)) frames ->
  all (all (all (fun x => x \is Num.real))) frames ->
  exists wd0 wd1 wd2 wd3,
    [/\ DenseFFTwCorrelator_init set_parameters env (fun _ _ => 0) args false
        = Ok wd0,
        correlate w frames wd0 =
        Ok ([seq reference_curve (bin_pixels qm bin frames) (bin_count qm bin)
                                 (sc bin) | bin <- bs], wd1),
        flush_plans None wd1 = Ok (tt, wd2)
      & correlate w frames wd2 =
        Ok ([seq reference_curve (bin_pixels qm bin frames) (bin_count qm bin)
                                 (sc bin) | bin <- bs], wd3)].
Proof.
move=> w_prim hfw hargs hbins hqm hshape huniq hpos hP hscale hT Tpos hf hr.
exact: (flush_then_correlate_rows w_prim hbins hqm hshape hT Tpos hf hr hpos
          huniq hP hscale hfw hargs).
Qed.

Section SpectralChecks.

Variable C : numClosedFieldType.
Variable w : nat -> C.
Hypothesis w_prim : forall N, (0 < N)%N -> N.-primitive_root (w N).


(** The denominator of [_correlate_1d].  For a [(T, P)] matrix of pixels,
    [T, P >= 1], the slice [np.correlate(sums, sums, "full")[T-1:]] of the
    correlation of the frame means is the vector of the [T] lag sums of
    their products: the entries of the lags [0 .. T-1], in this order. *)
Theorem denominator_lag_sums (X : seq (seq C)) (P : nat) :
  all (fun row => size row == P) X -> (0 < P)%N -> (0 < size X)%N ->
  exists2 full,
    np_correlate_full (np_mean_axis1 X) (np_mean_axis1 X) = Ok full &
    drop (size (np_mean_axis1 X)).-1 full =
    [seq Some (lag_denominator X P k) | k <- iota 0 (size X)].
Proof. exact: denominator_slice. Qed.

(** [_correlate_1d] on a clean buffer.  When the input buffer of the plan
    of the bin is zero beyond the first [T * P] cells and at least [2 * T * P]
    cells long, [_correlate_1d] on a real [(T, P)] matrix returns the
    quotients of the lag sums of the products of the frames by those of the
    products of their means, divided by the scale factor of the bin, and
    changes nothing but the plan. *)
Theorem correlate_1d_clean_buffer (X : seq (seq C)) (bin : nat)
    (wd wd1 : world C) (p P : nat) (s : C) :
  get_plan bin wd = Ok (p, wd1) ->
  let d0 := data_direct (nth (MkPlan [::] [::]) (heap wd1) p) in
  size X = nframes (base (self wd1)) -> (0 < size X)%N -> (0 < P)%N ->
  all (fun row => size row == P) X ->
  all (all (fun x => x \is Num.real)) X ->
  (2 * (size X * P) <= size d0)%N ->
  all (fun x => x == 0) (drop (size X * P) d0) ->
  dict_get (scale_factors (base (self wd1))) bin = Some s ->
  exists plan',
    correlate_1d w X bin wd =
    Ok ([seq xdiv (fdiv (lag_numerator X P k) (lag_denominator X P k)) (Some s)
        | k <- iota 0 (size X)],
        set_heap wd1 (set_nth (MkPlan [::] [::]) (heap wd1) p plan')).
Proof. exact: correlate_1d_clean. Qed.

(** [_correlate_1d] on any buffer.  Whatever the input buffer of the plan
    holds, the entry of the curve at lag [k] is the real part of the cell
    [(T - 1 - k) * P + P - 1] of the circular convolution of the two
    sequences the code transforms, divided by the lag sum of the means and
    by the scale factor; both sequences end with the cells that the buffer
    held beyond the first [T * P], and the convolution stays in the
    buffer. *)
Theorem correlate_1d_any_buffer (X : seq (seq C)) (bin : nat)
    (wd wd1 : world C) (p P : nat) (s : C) :
  get_plan bin wd = Ok (p, wd1) ->
  let d0 := data_direct (nth (MkPlan [::] [::]) (heap wd1) p) in
  let flat := flatten X in
  let tail := drop (size flat) d0 in
  let conv := cconv (flat ++ tail) (rev flat ++ tail) in
  size X = nframes (base (self wd1)) -> (0 < size X)%N -> (0 < P)%N ->
  all (fun row => size row == P) X ->
  (size X * P <= size d0)%N ->
  dict_get (scale_factors (base (self wd1))) bin = Some s ->
  exists reciprocal,
    correlate_1d w X bin wd =
    Ok ([seq xdiv (fdiv ('Re (nth 0 conv ((size X - k.+1) * P + P.-1)))
                        (lag_denominator X P k)) (Some s)
        | k <- iota 0 (size X)],
        set_heap wd1 (set_nth (MkPlan [::] [::]) (heap wd1) p
                              (MkPlan conv reciprocal))).
Proof. exact: correlate_1d_plan. Qed.

End SpectralChecks.

Section CuFFTPlans.

Variable C : numClosedFieldType.
Variable CUFFT_new : nat -> FFTwPlan C.

(** The plans of [DenseCuFFTCorrelator] are handed out zeroed.  When the
    CUFFT object built on a template of zeros starts with zero buffers,
    both buffers of the plan that [get_plan] returns hold only zeros, for
    a new plan and for a cached one, which is filled with zeros before it
    is returned. *)
Theorem cufft_get_plan_zeroed (bin p : nat) (wd wd' : world C) :
  (forall N, all (fun x => x == 0) (data_direct (CUFFT_new N)) /\
             all (fun x => x == 0) (data_reciprocal (CUFFT_new N))) ->
  cufft_get_plan CUFFT_new bin wd = Ok (p, wd') ->
  all (fun x => x == 0) (data_direct (nth (MkPlan [::] [::]) (heap wd') p)) /\
  all (fun x => x == 0) (data_reciprocal (nth (MkPlan [::] [::]) (heap wd') p)).
Proof.
move=> hnew; rewrite /cufft_get_plan.
case: (dict_item _ _) => [N|] //=.
have zeros (s : seq C) : all (fun x => x == 0) [seq (0 : C) | _ <- s].
  by apply/allP => x /mapP[_ _ ->].
have fresh :
    (if save_fft_plans (base (self wd))
     then Ok (size (heap wd),
              set_ffts (set_heap wd (rcons (heap wd) (CUFFT_new N)))
                (dict_set (ffts (self wd)) bin (Some (size (heap wd)))))
     else Ok (size (heap wd),
              set_heap wd (rcons (heap wd) (CUFFT_new N))))
    = Ok (p, wd') ->
    all (fun x => x == 0) (data_direct (nth (MkPlan [::] [::]) (heap wd') p))
    /\ all (fun x => x == 0)
           (data_reciprocal (nth (MkPlan [::] [::]) (heap wd') p)).
  by case: ifP => _ [<- <-] /=; rewrite nth_rcons ltnn eqxx.
case: (dict_get _ _) => [[q|]|] //.
by case=> <- <- /=; rewrite nth_set_nth /= eqxx /=.
Qed.

End CuFFTPlans.

Section SpectralRejects.

Variable C : numClosedFieldType.
Variable w : nat -> C.

Lemma get_pixels_in_bin_rejects (slf : DenseFFTwCorrelator C)
    (frames : seq (seq (seq C))) (bin : nat) (convert : bool) :
  (bin == 0%N) || (if bins (base slf) is Some bs then bin \in bs else false) ->
  (size frames != nframes (base slf))
  || ~~ all (has_shape (shape (base slf))) frames ->
  get_pixels_in_bin slf frames bin true convert = Raise AssertionError.
Proof.
move=> hbin bad; rewrite /get_pixels_in_bin.
have -> : (if (0 < bin)%N
           then if bins (base slf) is Some bs then assert (bin \in bs)
                else Raise TypeError
           else Ok tt) = Ok tt.
  case: (posnP bin) hbin => [-> //|bpos] /=.
  by case: (bins (base slf)) => [bs|] // ->.
rewrite /= /assert; case: eqP bad => [_|//] /=.
by case: (frames) => [|f fs] //= /negbTE ->.
Qed.

(** The frames are checked before any plan is touched.  On a correlator
    without bins or with at least one bin, [correlate] on a stack whose
    number of frames is not [nframes], or one of whose frames has not the
    shape of the correlator, raises [AssertionError], in any state. *)
Theorem correlate_rejects_frames (frames : seq (seq (seq C))) (wd : world C) :
  bins (base (self wd)) != Some [::] ->
  (size frames != nframes (base (self wd)))
  || ~~ all (has_shape (shape (base (self wd)))) frames ->
  correlate w frames wd = Raise AssertionError.
Proof.
move=> hb bad; rewrite /correlate.
case E: (bins (base (self wd))) hb => [[|b bs]|] // _ /=.
- rewrite {1}/mbind /correlate_bin {1}/mbind /mlift.
  by rewrite get_pixels_in_bin_rejects // E mem_head orbT.
- rewrite {1}/mbind /correlate_bin {1}/mbind /mlift.
  by rewrite get_pixels_in_bin_rejects.
Qed.

End SpectralRejects.

(** ** Precomputed plans *)

(** The constructor with [precompute_fft_plans=True] builds one plan per
    bin.  For distinct positive bins and any contents of the allocator, the
    new correlator has a buffer length and a cached plan for every bin; the
    plans are as many as the bins, each with two buffers of the length of
    its bin as [pyfftw.empty_aligned] handed them out, and no two bins
    share a plan. *)
Theorem precomputed_plans_built (C : numClosedFieldType)
    (Args : Type) (set_parameters : Args -> result (BaseCorrelator C))
    (env : facilities) (jnk : nat -> nat -> C) (args : Args)
    (b0 : BaseCorrelator C) (bs : seq nat) (qm : seq (seq nat)) :
  pyfftw env -> set_parameters args = Ok b0 ->
  bins b0 = Some bs -> qmask b0 = Some qm -> uniq bs -> 0%N \notin bs ->
  exists wd0,
    [/\ DenseFFTwCorrelator_init set_parameters env jnk args true = Ok wd0,
        plans_precomputed (configure_extra_options b0) qm bs wd0,
        junk wd0 = jnk
      & size (heap wd0) = size bs].
Proof.
move=> hfw hargs hbins hqm huniq hpos.
exact: (precomputed_init hbins hqm hpos huniq jnk hfw hargs).
Qed.

(** The first [correlate] on precomputed plans.  For a correlator built
    with [precompute_fft_plans=True] on an allocator that zero-fills, with
    distinct, positive and non-empty bins and real frames, the first
    [correlate] returns the curves of the reference divided by the scale
    factors, as it does without precomputed plans. *)
Theorem precomputed_first_correlate (C : numClosedFieldType) (w : nat -> C)
    (Args : Type) (set_parameters : Args -> result (BaseCorrelator C))
    (env : facilities) (args : Args) (b0 : BaseCorrelator C)
    (bs : seq nat) (qm : seq (seq nat)) (frames : seq (seq (seq C)))
    (sc : nat -> C) :
  (forall N, (0 < N)%N -> N.-primitive_root (w N)) ->
  pyfftw env -> set_parameters args = Ok b0 ->
  bins b0 = Some bs -> qmask b0 = Some qm -> has_shape (shape b0) qm ->
  uniq bs -> 0%N \notin bs ->
  {in bs, forall bin, (0 < bin_count qm bin)%N} ->
  {in bs, forall bin, dict_get (scale_factors b0) bin = Some (sc bin)} ->
  size frames = nframes b0 -> (0 < nframes b0)%N ->
  all (has_shape (shape b0)) frames ->
  all (all (all (fun x => x \is Num.real))) frames ->
  exists wd0 wd1,
    DenseFFTwCorrelator_init set_parameters env (fun _ _ => 0) args true
    = Ok wd0 /\
    correlate w frames wd0 =
    Ok ([seq reference_curve (bin_pixels qm bin frames) (bin_count qm bin)
                             (sc bin) | bin <- bs], wd1).
Proof.
move=> w_prim hfw hargs hbins hqm hshape huniq hpos hP hscale hT Tpos hf hr.
exact: (precomputed_rows w_prim hbins hqm hpos huniq hshape hT Tpos hf hr hP
          hscale hfw hargs).
Qed.

Lemma precomputed_plans_built_witness :
  exists wd0,
    [/\ DenseFFTwCorrelator_init (@Ok (BaseCorrelator algC)) all_facilities
          (fun a i => (a + i)%:R) (base_1x2 2) true = Ok wd0,
        plans_precomputed (configure_extra_options (base_1x2 2)) mask_both
          [:: 1%N] wd0,
        junk wd0 = (fun a i => (a + i)%:R)
      & size (heap wd0) = 1%N].
Proof.
apply: (@precomputed_plans_built algC (BaseCorrelator algC) (@Ok _)
          all_facilities (fun a i => (a + i)%:R) (base_1x2 2) (base_1x2 2)
          [:: 1%N] mask_both).
- reflexivity.
- reflexivity.
- reflexivity.
- reflexivity.
- reflexivity.
- reflexivity.
Defined.

Lemma precomputed_first_correlate_witness :
  exists wd0 wd1,
    DenseFFTwCorrelator_init (@Ok (BaseCorrelator algC)) all_facilities
      (fun _ _ => 0) (base_1x2 2) true = Ok wd0 /\
    correlate algC_root (frame_ones algC) wd0 =
    Ok ([seq reference_curve (bin_pixels mask_both bin (frame_ones algC))
               (bin_count mask_both bin) 2 | bin <- [:: 1%N]], wd1).
Proof.
apply: (@precomputed_first_correlate algC algC_root (BaseCorrelator algC)
          (@Ok _) all_facilities (base_1x2 2) (base_1x2 2) [:: 1%N] mask_both
          (frame_ones algC) (fun=> 2)).
- exact: algC_root_prim.
- reflexivity.
- reflexivity.
- reflexivity.
- reflexivity.
- reflexivity.
- reflexivity.
- reflexivity.
- by move=> bin; rewrite inE => /eqP ->.
- by move=> bin; rewrite inE => /eqP ->.
- reflexivity.
- reflexivity.
- reflexivity.
- exact: real_frame_ones.
Defined.

Lemma correlate_rejects_frames_witness :
  correlate algC_root (frame_ones algC) (world_1x1 algC None [::])
  = Raise AssertionError.
Proof.
apply: (@correlate_rejects_frames algC algC_root (frame_ones algC)
          (world_1x1 algC None [::])).
- reflexivity.
- reflexivity.
Defined.



(** * Instances of the further properties *)

Lemma py_dense_empty_mask_witness :
  py_dense_correlator (frames_1x2 rat) mask_none = Ok (nseq 2 None).
Proof.
apply: (@py_dense_empty_mask rat mask_none (frames_1x2 rat)).
reflexivity.
Defined.

Lemma py_dense_uniform_frames_witness :
  exists2 curve, py_dense_correlator (frames_uniform rat) mask_both = Ok curve &
    size curve = 2%N /\
    forall k, (k < 2)%N ->
      nth None curve k =
      if \sum_(i < 2 - k) nth (0 : rat) [:: 3; 5] i * nth 0 [:: 3; 5] (i + k)%N
         == 0
      then None else Some 1.
Proof.
apply: (@py_dense_uniform_frames rat (1%N, 2%N) mask_both (frames_uniform rat)
          (nth 0 [:: 3; 5])).
- reflexivity.
- reflexivity.
- reflexivity.
- by move=> [|[|t]].
Defined.

Lemma py_dense_intensity_unit_witness :
  py_dense_correlator
    [seq [seq [seq 2 * x | x <- row] | row <- f] | f <- frames_1x2 rat]
    mask_both
  = py_dense_correlator (frames_1x2 rat) mask_both.
Proof.
apply: (@py_dense_intensity_unit rat (1%N, 2%N) mask_both (frames_1x2 rat) 2).
- reflexivity.
- reflexivity.
- reflexivity.
- reflexivity.
Defined.

Lemma py_dense_unmasked_unused_witness :
  py_dense_correlator (frames_1x2 rat) mask_second
  = py_dense_correlator (frames_1x2_other rat) mask_second.
Proof.
apply: (@py_dense_unmasked_unused rat (1%N, 2%N) mask_second (frames_1x2 rat)
          (frames_1x2_other rat)).
- reflexivity.
- reflexivity.
- reflexivity.
- reflexivity.
- reflexivity.
Defined.

Lemma MatMulCorrelator_result_shape_witness :
  size [:: [:: Some (1 : rat)]] = n_bins (base_1x2 (2 : rat)) /\
  all (fun row => size row == nframes (base_1x2 (2 : rat)))
      [:: [:: Some (1 : rat)]].
Proof.
apply: (@MatMulCorrelator_result_shape rat (base_1x2 2) (frame_ones rat)).
by vm_compute.
Defined.

Lemma MatMulCorrelator_frame_count_witness :
  MatMulCorrelator_correlate (base_3x1x2 rat) (frames_1x2 rat)
  = Raise ValueError.
Proof.
apply: (@MatMulCorrelator_frame_count rat (base_3x1x2 rat) 1 [::] mask_both
          (1%N, 2%N) (frames_1x2 rat)).
- reflexivity.
- reflexivity.
- reflexivity.
- reflexivity.
- reflexivity.
- reflexivity.
- reflexivity.
Defined.

Lemma MatMulCorrelator_single_frame_witness :
  exists2 xs : seq (option rat),
    size xs = 1%N &
    MatMulCorrelator_correlate (base_3x1x2 rat) (frame_ones rat)
    = Ok [seq nseq 3 x | x <- xs].
Proof.
apply: (@MatMulCorrelator_single_frame rat (base_3x1x2 rat) [:: 1%N] mask_both
          (1%N, 2%N) (frame_ones rat)).
- reflexivity.
- reflexivity.
- reflexivity.
- reflexivity.
- reflexivity.
- reflexivity.
Defined.


Lemma sum_diagonals_no_leftover_witness :
  sum_diagonals (grid_threads (1%N, 1%N) (32%N, 32%N))
    (sum_diagonals (rev (grid_threads (1%N, 1%N) (32%N, 32%N)))
       (cublas_3 rat) (nseq 9 1)).2
    (flatten (matrix_3x3 rat))
  = sum_diagonals (grid_threads (1%N, 1%N) (32%N, 32%N)) (cublas_3 rat)
      (flatten (matrix_3x3 rat)).
Proof.
apply: (@sum_diagonals_no_leftover rat
          (rev (grid_threads (1%N, 1%N) (32%N, 32%N)))
          (grid_threads (1%N, 1%N) (32%N, 32%N)) (cublas_3 rat) (nseq 9 1)
          (flatten (matrix_3x3 rat))).
reflexivity.
Defined.


Lemma real_matrix_1x1 :
  all (all (fun x : algC => x \is Num.real)) [:: [:: 1]; [:: 2]].
Proof. by rewrite /= real1 (realn algC 2). Qed.

Lemma correlate_keeps_parameters_witness :
  exists rc1,
    same_parameters (world_1x1 algC None [::])
      (world_1x1 algC (Some 0%N) [:: MkPlan [:: 2; 5; 2; 0] rc1]).
Proof.
have [rc1 [rc2 [E1 _]]] := first_and_second_correlate algC_root_prim.
exists rc1.
exact: (@correlate_keeps_parameters algC algC_root (frames_1x1 algC)
          (world_1x1 algC None [::]) _ _ E1).
Defined.

Lemma correlate_result_shape_witness :
  size [:: [:: Some (1 : algC); Some 1]] = 1%N /\
  all (fun row => size row == 2%N) [:: [:: Some (1 : algC); Some 1]].
Proof.
have [rc1 [rc2 [E1 _]]] := first_and_second_correlate algC_root_prim.
exact: (@correlate_result_shape algC algC_root (frames_1x1 algC)
          (world_1x1 algC None [::]) _ _ E1).
Defined.

Lemma get_plan_cached_again_witness :
  get_plan 0
    (world_1x1 algC (Some 0%N) [:: MkPlan [:: 0; 0; 0; 0] [:: 0; 0; 0; 0]])
  = Ok (0%N,
        world_1x1 algC (Some 0%N) [:: MkPlan [:: 0; 0; 0; 0] [:: 0; 0; 0; 0]]).
Proof.
apply: (@get_plan_cached_again algC 0 0 (world_1x1 algC None [::])).
- reflexivity.
- reflexivity.
Defined.

Lemma get_plan_after_flush_witness :
  exists wd1 wd2,
    [/\ flush_plans None
          (world_1x1 algC (Some 0%N) [:: MkPlan [:: 2; 5; 2; 0] [::]])
        = Ok (tt, wd1),
        get_plan 0 wd1 = Ok (1%N, wd2)
      & nth (MkPlan [::] [::]) (heap wd2) 1
        = MkPlan (mkseq (fun=> (0 : algC)) 4) (mkseq (fun=> 0) 4)].
Proof.
apply: (@get_plan_after_flush algC 0 4
          (world_1x1 algC (Some 0%N) [:: MkPlan [:: 2; 5; 2; 0] [::]])).
reflexivity.
Defined.

Lemma flush_then_correlate_witness :
  exists wd0 wd1 wd2 wd3,
    [/\ DenseFFTwCorrelator_init (@Ok (BaseCorrelator algC)) all_facilities
          (fun _ _ => 0) (base_1x2 2) false = Ok wd0,
        correlate algC_root (frame_ones algC) wd0 =
        Ok ([seq reference_curve (bin_pixels mask_both bin (frame_ones algC))
                   (bin_count mask_both bin) 2 | bin <- [:: 1%N]], wd1),
        flush_plans None wd1 = Ok (tt, wd2)
      & correlate algC_root (frame_ones algC) wd2 =
        Ok ([seq reference_curve (bin_pixels mask_both bin (frame_ones algC))
                   (bin_count mask_both bin) 2 | bin <- [:: 1%N]], wd3)].
Proof.
apply: (@flush_then_correlate algC algC_root (BaseCorrelator algC) (@Ok _)
          all_facilities (base_1x2 2) (base_1x2 2) [:: 1%N] mask_both
          (frame_ones algC) (fun=> 2)).
- exact: algC_root_prim.
- reflexivity.
- reflexivity.
- reflexivity.
- reflexivity.
- reflexivity.
- reflexivity.
- reflexivity.
- by move=> bin; rewrite inE => /eqP ->.
- by move=> bin; rewrite inE => /eqP ->.
- reflexivity.
- reflexivity.
- reflexivity.
- exact: real_frame_ones.
Defined.


Lemma denominator_lag_sums_witness :
  exists2 full,
    np_correlate_full (np_mean_axis1 [:: [:: 1]; [:: 2 : algC]])
                      (np_mean_axis1 [:: [:: 1]; [:: 2 : algC]]) = Ok full &
    drop (size (np_mean_axis1 [:: [:: 1]; [:: 2 : algC]])).-1 full =
    [seq Some (lag_denominator [:: [:: 1]; [:: 2 : algC]] 1 k)
    | k <- iota 0 2].
Proof.
apply: (@denominator_lag_sums algC [:: [:: 1]; [:: 2]] 1).
- reflexivity.
- reflexivity.
- reflexivity.
Defined.

Lemma correlate_1d_clean_buffer_witness :
  exists plan',
    correlate_1d algC_root [:: [:: 1]; [:: 2]] 0 (world_1x1 algC None [::]) =
    Ok ([seq xdiv (fdiv (lag_numerator [:: [:: 1]; [:: 2]] 1 k)
                        (lag_denominator [:: [:: 1]; [:: 2]] 1 k)) (Some 1)
        | k <- iota 0 2],
        set_heap
          (world_1x1 algC (Some 0%N)
             [:: MkPlan [:: 0; 0; 0; 0] [:: 0; 0; 0; 0]])
          (set_nth (MkPlan [::] [::])
             [:: MkPlan [:: 0; 0; 0; 0] [:: 0; 0; 0; 0]] 0 plan')).
Proof.
apply: (@correlate_1d_clean_buffer algC algC_root algC_root_prim
          [:: [:: 1]; [:: 2]] 0 (world_1x1 algC None [::])
          (world_1x1 algC (Some 0%N)
             [:: MkPlan [:: 0; 0; 0; 0] [:: 0; 0; 0; 0]]) 0 1 1).
- reflexivity.
- reflexivity.
- reflexivity.
- reflexivity.
- reflexivity.
- exact: real_matrix_1x1.
- reflexivity.
- by rewrite /= !eqxx.
- reflexivity.
Defined.

Lemma correlate_1d_any_buffer_witness :
  exists reciprocal,
    correlate_1d algC_root [:: [:: 1]; [:: 2]] 0
      (world_1x1 algC (Some 0%N) [:: MkPlan [:: 2; 5; 2; 0] [::]]) =
    Ok ([seq xdiv (fdiv ('Re (nth 0 (cconv [:: 1; 2; 2; 0] [:: 2; 1; 2; 0])
                                  ((2 - k.+1) * 1 + 0)))
                        (lag_denominator [:: [:: 1]; [:: 2]] 1 k)) (Some 1)
        | k <- iota 0 2],
        set_heap
          (world_1x1 algC (Some 0%N) [:: MkPlan [:: 2; 5; 2; 0] [::]])
          (set_nth (MkPlan [::] [::]) [:: MkPlan [:: 2; 5; 2; 0] [::]] 0
             (MkPlan (cconv [:: 1; 2; 2; 0] [:: 2; 1; 2; 0]) reciprocal))).
Proof.
apply: (@correlate_1d_any_buffer algC algC_root algC_root_prim
          [:: [:: 1]; [:: 2]] 0
          (world_1x1 algC (Some 0%N) [:: MkPlan [:: 2; 5; 2; 0] [::]])
          (world_1x1 algC (Some 0%N) [:: MkPlan [:: 2; 5; 2; 0] [::]]) 0 1 1).
- reflexivity.
- reflexivity.
- reflexivity.
- reflexivity.
- reflexivity.
- reflexivity.
- reflexivity.
Defined.

Lemma cufft_get_plan_zeroed_witness :
  all (fun x : algC => x == 0)
      (data_direct (nth (MkPlan [::] [::])
         (heap (world_1x1 algC (Some 0%N) [:: cufft_zeros algC 4])) 0)) /\
  all (fun x : algC => x == 0)
      (data_reciprocal (nth (MkPlan [::] [::])
         (heap (world_1x1 algC (Some 0%N) [:: cufft_zeros algC 4])) 0)).
Proof.
apply: (@cufft_get_plan_zeroed algC (cufft_zeros algC) 0 0
          (world_1x1 algC None [::])).
- by move=> N; split; apply/allP => x; rewrite mem_nseq => /andP[_].
- reflexivity.
Defined.
